(** * Migration scripts of app-barber: regex rewriting and the file runner

    The three scripts [fix-repositories.py], [fix-usecases.py] and
    [fix-usecases-phase2.py] rewrite TypeScript sources with [re.sub] and
    write a file back when its text changed.  This development embeds

    - the part of Python's [re] that the scripts use (a backtracking
      matcher with greedy quantifiers, capture groups and back references,
      and [re.sub] with template and function replacements);
    - every fix function of the three scripts, pattern by pattern;
    - the runner ([process_file] / [fix_repository_file] and [main]) over an
      explicit file system, with exceptions and the printed messages. *)

From Stdlib Require Import Ascii String List Arith Lia Bool NArith Permutation.
From stdpp Require Import base list strings gmap sorting.

Local Open Scope string_scope.
Local Open Scope list_scope.

(** ** Text *)

(** File contents are Python [str] values; a character is a code point below
    256, held in an [ascii]. *)
Abbreviation text := (list ascii).

Definition txt (s : string) : text := list_ascii_of_string s.

(** The newline a Python string literal or a template writes as [\n]. *)
Definition nl : text := [ascii_of_nat 10].

Definition ascii_eqb (a b : ascii) : bool := Ascii.eqb a b.

(** [strip_prefix p s] is [Some rest] when [s = p ++ rest]. *)
Fixpoint strip_prefix (p s : text) : option text :=
  match p with
  | [] => Some s
  | a :: p' =>
      match s with
      | [] => None
      | b :: s' => if ascii_eqb a b then strip_prefix p' s' else None
      end
  end.

(** [sub in s] of Python: [needle] occurs somewhere in [s]. *)
Fixpoint contains (needle s : text) : bool :=
  match strip_prefix needle s with
  | Some _ => true
  | None => match s with
            | [] => false
            | _ :: s' => contains needle s'
            end
  end.

(** [s.replace(old, new)] of Python for a non-empty [old]: the occurrences
    are taken left to right and do not overlap.  [skip] counts the characters
    of the current occurrence still to be dropped. *)
Fixpoint replace_go (old new s : text) (skip : nat) : text :=
  match s with
  | [] => []
  | a :: s' =>
      match skip with
      | S k => replace_go old new s' k
      | O =>
          match strip_prefix old s with
          | Some _ => new ++ replace_go old new s' (length old - 1)
          | None => a :: replace_go old new s' 0
          end
      end
  end.

Definition str_replace (old new s : text) : text := replace_go old new s 0.

(** ** Character classes of [re] on [str] patterns *)

Inductive cset :=
| CWord            (** [\w] *)
| CSpace           (** [\s] *)
| CDigit           (** [\d] *)
| CNot (a : ascii) (** [[^a]] *).

Definition code (a : ascii) : N := N_of_ascii a.

Definition between (lo hi n : N) : bool := (lo <=? n)%N && (n <=? hi)%N.

Definition is_digit (a : ascii) : bool := between 48 57 (code a).

(** [\w]: alphanumeric code points and the underscore.  Above 127 these
    are the letters and numeric signs of Latin-1. *)
Definition is_word (a : ascii) : bool :=
  let n := code a in
  between 48 57 n || between 65 90 n || between 97 122 n || (n =? 95)%N
  || (n =? 170)%N || (n =? 178)%N || (n =? 179)%N || (n =? 181)%N
  || (n =? 185)%N || (n =? 186)%N || between 188 190 n
  || between 192 214 n || between 216 246 n || between 248 255 n.

(** [\s]: the ASCII white space, the separators 28..31, NEL and NBSP. *)
Definition is_space (a : ascii) : bool :=
  let n := code a in
  between 9 13 n || between 28 32 n || (n =? 133)%N || (n =? 160)%N.

Definition cset_mem (c : cset) (a : ascii) : bool :=
  match c with
  | CWord => is_word a
  | CSpace => is_space a
  | CDigit => is_digit a
  | CNot b => negb (ascii_eqb a b)
  end.

(** ** Patterns *)

(** The patterns of the three scripts are built from literal text, one
    character of a class, a greedy [*] or [+] on a class (no script
    quantifies anything larger than one class), concatenation, numbered
    capture groups and back references.  [re.DOTALL] only changes [.],
    which no pattern uses unescaped. *)
Inductive regex :=
| Lit (l : text)
| One (c : cset)
| Star (c : cset)
| Plus (c : cset)
| Cat (r1 r2 : regex)
| Group (n : nat) (r : regex)
| Backref (n : nat).

(** Captured groups, most recent binding first. *)
Definition groups := list (nat * text).

Fixpoint group_lookup (n : nat) (g : groups) : option text :=
  match g with
  | [] => None
  | (m, t) :: g' => if Nat.eqb n m then Some t else group_lookup n g'
  end.

(** ** The backtracking matcher *)

(** Greedy repetition of one class: take as many characters as possible,
    then give characters back one at a time until the rest of the pattern
    (the continuation [k]) succeeds. *)
Fixpoint star_k {R : Type} (c : cset) (s : text) (k : text -> option R) : option R :=
  match s with
  | [] => k []
  | a :: s' =>
      if cset_mem c a then
        match star_k c s' k with
        | Some r => Some r
        | None => k s
        end
      else k s
  end.

(** [mt r s g k] matches [r] at the start of [s] with groups [g] and hands
    the unread rest and the groups to [k]; [None] makes it backtrack. *)
Fixpoint mt {R : Type} (r : regex) (s : text) (g : groups)
    (k : text -> groups -> option R) : option R :=
  match r with
  | Lit l =>
      match strip_prefix l s with
      | Some s' => k s' g
      | None => None
      end
  | One c =>
      match s with
      | a :: s' => if cset_mem c a then k s' g else None
      | [] => None
      end
  | Star c => star_k c s (fun s' => k s' g)
  | Plus c =>
      match s with
      | a :: s' => if cset_mem c a then star_k c s' (fun s'' => k s'' g) else None
      | [] => None
      end
  | Cat r1 r2 => mt r1 s g (fun s' g' => mt r2 s' g' k)
  | Group n r1 =>
      mt r1 s g (fun s' g' => k s' ((n, firstn (length s - length s') s) :: g'))
  | Backref n =>
      match group_lookup n g with
      | Some t =>
          match strip_prefix t s with
          | Some s' => k s' g
          | None => None
          end
      | None => None
      end
  end.

(** A match starting at the first character of [s]: its length and groups. *)
Definition match_at (r : regex) (s : text) : option (nat * groups) :=
  mt r s [] (fun s' g => Some (length s - length s', g)).

(** [re.search]: the leftmost position with a match. *)
Fixpoint search (r : regex) (s : text) : option (nat * (nat * groups)) :=
  match match_at r s with
  | Some m => Some (0, m)
  | None =>
      match s with
      | [] => None
      | _ :: s' =>
          match search r s' with
          | Some (i, m) => Some (S i, m)
          | None => None
          end
      end
  end.

(** ** Match objects and replacements *)

Record matchobj := MatchObj { m_text : text; m_groups : groups }.

(** [m.group(n)]; a group that did not take part gives the empty string in
    a template. *)
Definition group (m : matchobj) (n : nat) : text :=
  match n with
  | O => m_text m
  | _ => match group_lookup n (m_groups m) with
         | Some t => t
         | None => []
         end
  end.

(** A parsed replacement template: literal text and [\n] group references. *)
Inductive titem :=
| TLit (l : text)
| TGroup (n : nat).

Definition template := list titem.

Fixpoint expand (t : template) (m : matchobj) : text :=
  match t with
  | [] => []
  | TLit l :: t' => l ++ expand t' m
  | TGroup n :: t' => group m n ++ expand t' m
  end.

(** ** [re.sub] *)

(** [sub_go r f s skip] rewrites [s] from left to right.  [skip] counts the
    characters of the current match still to be dropped; with [skip = 0]
    the pattern is tried at the current position.  An empty match puts the
    replacement in and copies the character (no pattern of the scripts can
    match the empty string). *)
Fixpoint sub_go (r : regex) (f : matchobj -> text) (s : text) (skip : nat) : text :=
  match s with
  | [] =>
      match skip with
      | O => match match_at r [] with
             | Some (_, g) => f (MatchObj [] g)
             | None => []
             end
      | S _ => []
      end
  | a :: s' =>
      match skip with
      | S k => sub_go r f s' k
      | O =>
          match match_at r s with
          | Some (O, g) => f (MatchObj [] g) ++ a :: sub_go r f s' 0
          | Some (S n, g) => f (MatchObj (firstn (S n) s) g) ++ sub_go r f s' n
          | None => a :: sub_go r f s' 0
          end
      end
  end.

(** [re.sub(pattern, repl, content)] with a function [repl]. *)
Definition re_sub (r : regex) (f : matchobj -> text) (s : text) : text :=
  sub_go r f s 0.

(** [re.sub(pattern, template, content)] with a string [repl]. *)
Definition re_sub_t (r : regex) (t : template) (s : text) : text :=
  re_sub r (expand t) s.

(** [rx [r1; ...; rn]] is the concatenation [r1 r2 ... rn]. *)
Definition rx (rs : list regex) : regex := fold_right Cat (Lit []) rs.

(** A replacement template that is plain text. *)
Definition plain (s : string) : template := [TLit (txt s)].

(** ** Paths and their order *)

(** A path is the list of its components below the root of the file
    system, as [pathlib] keeps it in [parts]. *)
Abbreviation path := (list string).

(** [filepath.name]: the last component. *)
Definition name (p : path) : string := List.last p "".

Fixpoint text_cmp (a b : text) : comparison :=
  match a, b with
  | [], [] => Eq
  | [], _ :: _ => Lt
  | _ :: _, [] => Gt
  | x :: a', y :: b' =>
      match (code x ?= code y)%N with
      | Eq => text_cmp a' b'
      | c => c
      end
  end.

(** The order of [PurePath.__lt__]: the component lists compared as Python
    compares lists of [str]. *)
Fixpoint path_cmp (p q : path) : comparison :=
  match p, q with
  | [], [] => Eq
  | [], _ :: _ => Lt
  | _ :: _, [] => Gt
  | x :: p', y :: q' =>
      match text_cmp (txt x) (txt y) with
      | Eq => path_cmp p' q'
      | c => c
      end
  end.

Definition path_leb (p q : path) : bool :=
  match path_cmp p q with
  | Gt => false
  | _ => true
  end.

Fixpoint insert_sorted (p : path) (l : list path) : list path :=
  match l with
  | [] => [p]
  | q :: l' => if path_leb p q then p :: l else q :: insert_sorted p l'
  end.

(** [sorted(files)]: a stable sort by [path_cmp]. *)
Definition sorted (l : list path) : list path := fold_right insert_sorted [] l.

(** ** Glob patterns *)

Definition ends_with (suffix s : text) : bool :=
  match strip_prefix (rev suffix) (rev s) with
  | Some _ => true
  | None => false
  end.

(** [fnmatch] of a name against [prefix*suffix]. *)
Definition name_matches (prefix suffix : string) (n : string) : bool :=
  match strip_prefix (txt prefix) (txt n) with
  | Some rest => ends_with (txt suffix) rest
  | None => false
  end.

Fixpoint strip_dir (root p : path) : option path :=
  match root with
  | [] => Some p
  | d :: root' =>
      match p with
      | [] => None
      | e :: p' => if String.eqb d e then strip_dir root' p' else None
      end
  end.

Inductive globpat :=
| Here (prefix suffix : string)  (** [prefix*suffix]: entries of the directory itself *)
| Deep (prefix suffix : string)  (** [**/prefix*suffix]: entries at any depth *).

Definition glob_matches (root : path) (g : globpat) (p : path) : bool :=
  match strip_dir root p with
  | Some [n] =>
      match g with
      | Here pre suf | Deep pre suf => name_matches pre suf n
      end
  | Some ((_ :: _ :: _) as rel) =>
      match g with
      | Here _ _ => false
      | Deep pre suf => name_matches pre suf (name rel)
      end
  | _ => false
  end.

(** ** The file system *)

(** The exceptions that opening, decoding and writing a file raise, and one
    more for a failure inside a fix function.  All of them are subclasses
    of [Exception]. *)
Inductive exn :=
| FileNotFoundError
| PermissionError
| IsADirectoryError
| UnicodeDecodeError
| RuntimeError (detail : string).

(** A file: its decoded text, and the exception (if any) that opening it
    for reading and decoding it, or opening it for writing, raises. *)
Record file := File {
  f_text : text;
  f_read_error : option exn;
  f_write_error : option exn
}.

(** The directories that exist, the files, the order in which the
    operating system lists the entries (the order [glob] yields them in),
    and the paths that may not be looked at: [stat] on them raises
    [PermissionError] (a directory above them cannot be searched). *)
Record fsys := Fsys {
  dirs : gset path;
  files : gmap path file;
  listing : list path;
  denied : gset path
}.

(** What [print] writes, by kind and parameters (the layout as text is not
    modelled). *)
Inductive msg :=
| Banner (title : string)
| Rule
| DirNotFound (dir : path)
| Found (n : nat)
| Processing (n : string)
| Fixed (n : string)
| NoChanges (n : string)
| Error (e : exn)
| Completed
| Summary (changed total : nat)
| NextStep.

(** What a run does to the outside, in order. *)
Inductive event :=
| Print (m : msg)
| OpenRead (p : path)
| OpenWrite (p : path).

Record state := State {
  fs : fsys;
  trace : list event
}.

(** ** Computations that read and write the state and may raise *)

Inductive result (A : Type) :=
| Ok (a : A)
| Raise (e : exn).
Arguments Ok {A} a.
Arguments Raise {A} e.

Definition M (A : Type) : Type := state -> result A * state.

Definition ret {A : Type} (a : A) : M A := fun st => (Ok a, st).

Definition bind {A B : Type} (m : M A) (k : A -> M B) : M B :=
  fun st =>
    match m st with
    | (Ok a, st') => k a st'
    | (Raise e, st') => (Raise e, st')
    end.

Definition raise {A : Type} (e : exn) : M A := fun st => (Raise e, st).

(** [try: body except Exception as e: handler(e)] *)
Definition try_except {A : Type} (body : M A) (handler : exn -> M A) : M A :=
  fun st =>
    match body st with
    | (Ok a, st') => (Ok a, st')
    | (Raise e, st') => handler e st'
    end.

Definition lift {A : Type} (r : result A) : M A := fun st => (r, st).

Declare Scope monad_scope.
Delimit Scope monad_scope with monad.
Notation "x <- m ;; k" := (bind m (fun x => k))
  (at level 100, m at next level, right associativity) : monad_scope.
Notation "m ;;; k" := (bind m (fun _ => k))
  (at level 100, right associativity) : monad_scope.
Local Open Scope monad_scope.

Definition log (e : event) (st : state) : state :=
  State (fs st) (trace st ++ [e]).

(** [print(...)]: the message is added to the trace.  Writing to standard
    output is taken to succeed. *)
Definition print (m : msg) : M unit := fun st => (Ok tt, log (Print m) st).

(** [open(p, 'r')] followed by [f.read()]. *)
Definition read_text (p : path) : M text :=
  fun st =>
    let st' := log (OpenRead p) st in
    match files (fs st) !! p with
    | None => (Raise FileNotFoundError, st')
    | Some f =>
        match f_read_error f with
        | Some e => (Raise e, st')
        | None => (Ok (f_text f), st')
        end
    end.

Definition set_text (p : path) (c : text) (w : fsys) : fsys :=
  let f := match files w !! p with
           | Some f => File c (f_read_error f) (f_write_error f)
           | None => File c None None
           end in
  Fsys (dirs w) (<[p := f]> (files w)) (listing w) (denied w).

(** [open(p, 'w')] followed by [f.write(c)]. *)
Definition write_text (p : path) (c : text) : M unit :=
  fun st =>
    let st' := log (OpenWrite p) st in
    match files (fs st) !! p with
    | Some (File _ _ (Some e)) => (Raise e, st')
    | _ => (Ok tt, State (set_text p c (fs st)) (trace st'))
    end.

(** Whether something is at the path: a directory or a file. *)
Definition exists_at (d : path) (w : fsys) : bool :=
  bool_decide (d ∈ dirs w) || bool_decide (is_Some (files w !! d)).

(** [d.exists()]: [stat] on the path; a path with nothing at it gives
    [False], a path that may not be looked at raises. *)
Definition path_exists (d : path) : M bool :=
  fun st =>
    if bool_decide (d ∈ denied (fs st)) then (Raise PermissionError, st)
    else (Ok (exists_at d (fs st)), st).

(** The paths [dir.glob(pattern)] yields: the matching entries in listing
    order when [dir] is a directory, nothing when it is not one (missing,
    or a file), and nothing when the call raises. *)
Definition glob_files (d : path) (g : globpat) (w : fsys) : list path :=
  if bool_decide (d ∈ denied w) then []
  else if bool_decide (d ∈ dirs w)
  then List.filter (glob_matches d g) (listing w)
  else [].

(** [list(dir.glob(pattern))]: [glob] starts with [dir.is_dir()], which
    raises when [dir] may not be looked at. *)
Definition glob (d : path) (g : globpat) : M (list path) :=
  fun st =>
    if bool_decide (d ∈ denied (fs st)) then (Raise PermissionError, st)
    else (Ok (glob_files d g (fs st)), st).

(** ** The runner shared by the two use-case scripts *)

(** A call of a fix function returns the new content or raises. *)
Definition fixfn := text -> result text.

Definition total (f : text -> text) : fixfn := fun c => Ok (f c).

(** [content = f1(content); content = f2(content); ...] *)
Fixpoint apply_fixes (fixes : list fixfn) (content : text) : result text :=
  match fixes with
  | [] => Ok content
  | f :: rest =>
      match f content with
      | Ok content' => apply_fixes rest content'
      | Raise e => Raise e
      end
  end.

(** [for p in files: if body(p): count += 1] *)
Fixpoint count_loop (body : path -> M bool) (ps : list path) (count : nat) : M nat :=
  match ps with
  | [] => ret count
  | p :: rest =>
      changed <- body p ;;
      count_loop body rest (if changed then count + 1 else count)
  end.

Section Runner.

Variable fixes : list fixfn.

(** [process_file] of fix-usecases.py and of fix-usecases-phase2.py,
    which differ in the fix functions they call. *)
Definition process_file_with (filepath : path) : M bool :=
  print (Processing (name filepath)) ;;;
  try_except
    (content <- read_text filepath ;;
     let original := content in
     content <- lift (apply_fixes fixes content) ;;
     if decide (content <> original) then
       write_text filepath content ;;;
       print (Fixed (name filepath)) ;;;
       ret true
     else
       print (NoChanges (name filepath)) ;;;
       ret false)
    (fun e =>
       print (Error e) ;;;
       ret false).

End Runner.

(** ** fix-repositories.py: the substitutions *)

Module Repositories.

Definition pat_datetime_import : regex :=
  Lit (txt "import { DateTime } from '@barbershop/domain/value-objects/datetime.vo'").

Definition pat_specialty_import : regex :=
  Lit (txt "import { Specialty } from '@barbershop/domain/value-objects/specialty.vo'").

(** [\w+Mapper\.toDomain\([^)]+\)] *)
Definition mapper_call : regex :=
  rx [Plus CWord; Lit (txt "Mapper.toDomain("); Plus (CNot ")"%char); Lit (txt ")")].

(** [(\s+)(const \w+ = )(\w+Mapper\.toDomain\([^)]+\))] *)
Definition pat_assign : regex :=
  rx [Group 1 (Plus CSpace);
      Group 2 (rx [Lit (txt "const "); Plus CWord; Lit (txt " = ")]);
      Group 3 mapper_call].

(** [\1\2\3\n\1if (\2.isFailure) return null] *)
Definition tpl_assign : template :=
  [TGroup 1; TGroup 2; TGroup 3; TLit nl; TGroup 1; TLit (txt "if (");
   TGroup 2; TLit (txt ".isFailure) return null")].

(** [(\w+)\.version] *)
Definition pat_version : regex := rx [Group 1 (Plus CWord); Lit (txt ".version")].

(** [return (\w+Mapper\.toDomain\([^)]+\))] *)
Definition pat_return : regex := rx [Lit (txt "return "); Group 1 mapper_call].

(** [const result = \1\n    return result.isSuccess ? result.value : null] *)
Definition tpl_return : template :=
  [TLit (txt "const result = "); TGroup 1;
   TLit (nl ++ txt "    return result.isSuccess ? result.value : null")].

Definition pat_todate : regex := Lit (txt ".toDate()").

Definition sub_datetime_import : text -> text :=
  re_sub_t pat_datetime_import (plain "import { DateTime } from 'luxon'").
Definition sub_specialty_import : text -> text :=
  re_sub_t pat_specialty_import (plain "").
Definition sub_assign : text -> text := re_sub_t pat_assign tpl_assign.
Definition sub_version : text -> text :=
  re_sub_t pat_version (plain "0 // version managed by repository").
Definition sub_return : text -> text := re_sub_t pat_return tpl_return.
Definition sub_todate : text -> text := re_sub_t pat_todate (plain ".toJSDate()").

(** The six [re.sub] calls of [fix_repository_file], between reading the
    file and comparing with the original. *)
Definition fix_content (content : text) : text :=
  let content := sub_datetime_import content in
  let content := sub_specialty_import content in
  let content := sub_assign content in
  let content := sub_version content in
  let content := sub_return content in
  let content := sub_todate content in
  content.

(** The patterns configured in this script. *)
Definition patterns : list regex :=
  [pat_datetime_import; pat_specialty_import; pat_assign; pat_version;
   pat_return; pat_todate].

Definition repo_dir : path :=
  ["Users"; "federiconicolascarrizo"; "Documents"; "Repositorios"; "barberia";
   "packages"; "infrastructure"; "src"; "repositories"].

(** [fix_repository_file]: no [try] around the read, the substitutions
    and the write. *)
Definition fix_repository_file (file_path : path) : M bool :=
  print (Processing (name file_path)) ;;;
  content <- read_text file_path ;;
  let original := content in
  let content := fix_content content in
  if decide (content <> original) then
    write_text file_path content ;;;
    print (Fixed (name file_path)) ;;;
    ret true
  else
    print (NoChanges (name file_path)) ;;;
    ret false.

(** [main]: the files are visited in the order [glob] yields them. *)
Definition main : M unit :=
  found <- path_exists repo_dir ;;
  if negb found then
    print (DirNotFound repo_dir)
  else
    files <- glob repo_dir (Here "prisma-" ".repository.ts") ;;
    print (Found (length files)) ;;;
    fixed_count <- count_loop fix_repository_file files 0 ;;
    print (Summary fixed_count (length files)).

End Repositories.

(** ** fix-usecases.py: the fix functions *)

Module UseCases.

Definition pat_datetime_import : regex :=
  Lit (txt "import { DateTime } from '@barbershop/domain/value-objects/datetime.vo'").

Definition fix_datetime_imports (content : text) : text :=
  let content :=
    re_sub_t pat_datetime_import (plain "import { DateTime } from 'luxon'") content in
  content.

(** [const appointmentIdOrError = AppointmentId\.create\(([^)]+)\)\s*if
    \(appointmentIdOrError\.isFailure\) \{\s*return
    Result\.fail<Appointment>\(`Invalid appointment ID:
    \$\{appointmentIdOrError\.error\}`\)\s*\}\s*const appointmentId =
    appointmentIdOrError\.getValue\(\)] *)
Definition pat_appointment_id : regex :=
  rx [Lit (txt "const appointmentIdOrError = AppointmentId.create(");
      Group 1 (Plus (CNot ")"%char)); Lit (txt ")"); Star CSpace;
      Lit (txt "if (appointmentIdOrError.isFailure) {"); Star CSpace;
      Lit (txt "return Result.fail<Appointment>(`Invalid appointment ID: ${appointmentIdOrError.error}`)");
      Star CSpace; Lit (txt "}"); Star CSpace;
      Lit (txt "const appointmentId = appointmentIdOrError.getValue()")].

(** The same shape with [Result\.fail<[^>]+>] for barber, client and
    service ids. *)
Definition pat_barber_id : regex :=
  rx [Lit (txt "const barberIdOrError = BarberId.create(");
      Group 1 (Plus (CNot ")"%char)); Lit (txt ")"); Star CSpace;
      Lit (txt "if (barberIdOrError.isFailure) {"); Star CSpace;
      Lit (txt "return Result.fail<"); Plus (CNot ">"%char);
      Lit (txt ">(`Invalid barber ID: ${barberIdOrError.error}`)");
      Star CSpace; Lit (txt "}"); Star CSpace;
      Lit (txt "const barberId = barberIdOrError.getValue()")].

Definition pat_client_id : regex :=
  rx [Lit (txt "const clientIdOrError = ClientId.create(");
      Group 1 (Plus (CNot ")"%char)); Lit (txt ")"); Star CSpace;
      Lit (txt "if (clientIdOrError.isFailure) {"); Star CSpace;
      Lit (txt "return Result.fail<"); Plus (CNot ">"%char);
      Lit (txt ">(`Invalid client ID: ${clientIdOrError.error}`)");
      Star CSpace; Lit (txt "}"); Star CSpace;
      Lit (txt "const clientId = clientIdOrError.getValue()")].

Definition pat_service_id : regex :=
  rx [Lit (txt "const serviceIdOrError = ServiceId.create(");
      Group 1 (Plus (CNot ")"%char)); Lit (txt ")"); Star CSpace;
      Lit (txt "if (serviceIdOrError.isFailure) {"); Star CSpace;
      Lit (txt "return Result.fail<"); Plus (CNot ">"%char);
      Lit (txt ">(`Invalid service ID: ${serviceIdOrError.error}`)");
      Star CSpace; Lit (txt "}"); Star CSpace;
      Lit (txt "const serviceId = serviceIdOrError.getValue()")].

Definition fix_id_vo_usage (content : text) : text :=
  let content :=
    re_sub_t pat_appointment_id
      [TLit (txt "const appointmentId = AppointmentId.create("); TGroup 1; TLit (txt ")")]
      content in
  let content :=
    re_sub_t pat_barber_id
      [TLit (txt "const barberId = BarberId.create("); TGroup 1; TLit (txt ")")]
      content in
  let content :=
    re_sub_t pat_client_id
      [TLit (txt "const clientId = ClientId.create("); TGroup 1; TLit (txt ")")]
      content in
  let content :=
    re_sub_t pat_service_id
      [TLit (txt "const serviceId = ServiceId.create("); TGroup 1; TLit (txt ")")]
      content in
  content.

Definition pat_barber_active : regex := Lit (txt "barber.isActive").
Definition pat_client_active : regex := Lit (txt "client.isActive").
Definition pat_appointment_status : regex := Lit (txt "appointment.status.value").
Definition pat_apt_status : regex := Lit (txt "apt.status.value").

Definition fix_entity_apis (content : text) : text :=
  let content := re_sub_t pat_barber_active (plain "barber.status.isActive()") content in
  let content := re_sub_t pat_client_active (plain "client.status.isActive()") content in
  let content := re_sub_t pat_appointment_status (plain "appointment.status") content in
  let content := re_sub_t pat_apt_status (plain "apt.status") content in
  content.

Definition pat_todate : regex := Lit (txt ".toDate()").

(** [DateTime\.create\(([^)]+)\)] *)
Definition pat_datetime_create : regex :=
  rx [Lit (txt "DateTime.create("); Group 1 (Plus (CNot ")"%char)); Lit (txt ")")].

Definition fix_datetime_methods (content : text) : text :=
  let content := re_sub_t pat_todate (plain ".toJSDate()") content in
  let content :=
    re_sub_t pat_datetime_create
      [TLit (txt "DateTime.fromJSDate("); TGroup 1; TLit (txt ")")] content in
  content.

(** [TimeSlot\.create\(\{\s*startTime,\s*endTime\s*\}\)] *)
Definition pat_timeslot_short : regex :=
  rx [Lit (txt "TimeSlot.create({"); Star CSpace; Lit (txt "startTime,");
      Star CSpace; Lit (txt "endTime"); Star CSpace; Lit (txt "})")].

(** [TimeSlot\.create\(\{\s*startTime:\s*([^,]+),\s*endTime:\s*([^}]+)\s*\}\)] *)
Definition pat_timeslot_long : regex :=
  rx [Lit (txt "TimeSlot.create({"); Star CSpace; Lit (txt "startTime:");
      Star CSpace; Group 1 (Plus (CNot ","%char)); Lit (txt ","); Star CSpace;
      Lit (txt "endTime:"); Star CSpace; Group 2 (Plus (CNot "}"%char));
      Star CSpace; Lit (txt "})")].

Definition fix_timeslot_create (content : text) : text :=
  let content :=
    re_sub_t pat_timeslot_short (plain "TimeSlot.create(startTime, endTime)") content in
  let content :=
    re_sub_t pat_timeslot_long
      [TLit (txt "TimeSlot.create("); TGroup 1; TLit (txt ", "); TGroup 2; TLit (txt ")")]
      content in
  content.

Definition pat_getvalue : regex := Lit (txt ".getValue()").

Definition fix_result_getvalue (content : text) : text :=
  let content := re_sub_t pat_getvalue (plain ".value") content in
  content.

(** The fix functions in the order [process_file] calls them. *)
Definition fixes : list (text -> text) :=
  [fix_datetime_imports; fix_id_vo_usage; fix_entity_apis;
   fix_datetime_methods; fix_timeslot_create; fix_result_getvalue].

(** The body of the [try] block of [process_file] between the read and
    the comparison with [original]. *)
Definition fix_content (content : text) : text :=
  let content := fix_datetime_imports content in
  let content := fix_id_vo_usage content in
  let content := fix_entity_apis content in
  let content := fix_datetime_methods content in
  let content := fix_timeslot_create content in
  let content := fix_result_getvalue content in
  content.

(** The patterns configured in this script. *)
Definition patterns : list regex :=
  [pat_datetime_import; pat_appointment_id; pat_barber_id; pat_client_id;
   pat_service_id; pat_barber_active; pat_client_active;
   pat_appointment_status; pat_apt_status; pat_todate; pat_datetime_create;
   pat_timeslot_short; pat_timeslot_long; pat_getvalue].

Definition BASE_DIR : path :=
  ["Users"; "federiconicolascarrizo"; "Documents"; "Repositorios"; "barberia";
   "packages"; "application"; "src"; "use-cases"].

Definition process_file : path -> M bool := process_file_with (map total fixes).

Definition main : M unit :=
  print (Banner "Iniciando correccion de use cases...") ;;;
  print Rule ;;;
  files <- glob BASE_DIR (Deep "" ".use-case.ts") ;;
  print (Found (length files)) ;;;
  print Rule ;;;
  corrected <- count_loop process_file (sorted files) 0 ;;
  print Rule ;;;
  print Completed ;;;
  print (Summary corrected (length files)) ;;;
  print NextStep.

End UseCases.

(** ** fix-usecases-phase2.py: the fix functions *)

Module Phase2.

(** [const (\w+)OrError = DateTime\.fromJSDate\(([^)]+)\)\s*if
    \(\1OrError\.isFailure\) \{([^}]+)\}\s*const \1 = \1OrError\.value] *)
Definition pat_datetime_validation : regex :=
  rx [Lit (txt "const "); Group 1 (Plus CWord);
      Lit (txt "OrError = DateTime.fromJSDate("); Group 2 (Plus (CNot ")"%char));
      Lit (txt ")"); Star CSpace; Lit (txt "if ("); Backref 1;
      Lit (txt "OrError.isFailure) {"); Group 3 (Plus (CNot "}"%char));
      Lit (txt "}"); Star CSpace; Lit (txt "const "); Backref 1; Lit (txt " = ");
      Backref 1; Lit (txt "OrError.value")].

(** The nested [replacement(match)] of [fix_datetime_validation]. *)
Definition datetime_validation_replacement (m : matchobj) : text :=
  let var_name := group m 1 in
  let date_expr := group m 2 in
  txt "const " ++ var_name ++ txt " = DateTime.fromJSDate(" ++ date_expr ++ txt ")".

(** [DateTime\.fromJSDate\([^)]+\)\.value] *)
Definition pat_datetime_value : regex :=
  rx [Lit (txt "DateTime.fromJSDate("); Plus (CNot ")"%char); Lit (txt ").value")].

Definition fix_datetime_validation (content : text) : text :=
  let content := re_sub pat_datetime_validation datetime_validation_replacement content in
  let content :=
    re_sub pat_datetime_value
      (fun m => str_replace (txt ".value") (txt "") (group m 0)) content in
  content.

(** [barber\.specialties\.some\(specialty => specialty\.value === (\w+)\)] *)
Definition pat_specialties_some : regex :=
  rx [Lit (txt "barber.specialties.some(specialty => specialty.value === ");
      Group 1 (Plus CWord); Lit (txt ")")].

(** [service\.requiredSkills\.every\(skill =>\s*barber\.specialties\.specialties\.includes\(skill\)\)] *)
Definition pat_required_skills : regex :=
  rx [Lit (txt "service.requiredSkills.every(skill =>"); Star CSpace;
      Lit (txt "barber.specialties.specialties.includes(skill))")].

Definition sub_specialties_some : text -> text :=
  re_sub_t pat_specialties_some
    [TLit (txt "barber.specialties.specialties.includes("); TGroup 1; TLit (txt ")")].

(** The substitution whose replacement is [lambda m: m.group(0)]. *)
Definition sub_required_skills : text -> text :=
  re_sub pat_required_skills (fun m => group m 0).

Definition fix_barber_specialties (content : text) : text :=
  let content := sub_specialties_some content in
  let content := sub_required_skills content in
  content.

(** [barber\.isAvailableAt\((\w+)\)] *)
Definition pat_is_available_at : regex :=
  rx [Lit (txt "barber.isAvailableAt("); Group 1 (Plus CWord); Lit (txt ")")].

Definition fix_barber_is_available_at (content : text) : text :=
  let content := re_sub_t pat_is_available_at (plain "barber.isAvailable()") content in
  content.

(** [PaymentInfo\.create\(\{[^}]+\}\)] *)
Definition pat_payment_create : regex :=
  rx [Lit (txt "PaymentInfo.create({"); Plus (CNot "}"%char); Lit (txt "})")].

(** The nested [replacement(match)] of [fix_payment_info_create]. *)
Definition payment_replacement (m : matchobj) : text :=
  txt "PaymentInfo.pending(service.price)".

(** [(import \{ PaymentInfo \})] *)
Definition pat_payment_import : regex :=
  Group 1 (Lit (txt "import { PaymentInfo }")).

(** The first, unguarded substitution of [fix_payment_info_create]. *)
Definition sub_payment_create : text -> text :=
  re_sub pat_payment_create payment_replacement.

(** The guard of the import rule:
    ["PaymentInfo" in content and "PaymentMethod" not in content]. *)
Definition payment_guard (content : text) : bool :=
  contains (txt "PaymentInfo") content && negb (contains (txt "PaymentMethod") content).

(** The guarded substitution. *)
Definition sub_payment_import : text -> text :=
  re_sub_t pat_payment_import (plain "import { PaymentInfo, PaymentMethod }").

Definition fix_payment_info_create (content : text) : text :=
  let content := sub_payment_create content in
  let content :=
    if payment_guard content then sub_payment_import content else content in
  content.

(** [\s*// \d+\. Update barber metrics\s*barber\.recordCompletedAppointment\(\)\s*] *)
Definition pat_barber_metrics : regex :=
  rx [Star CSpace; Lit (txt "// "); Plus CDigit; Lit (txt ". Update barber metrics");
      Star CSpace; Lit (txt "barber.recordCompletedAppointment()"); Star CSpace].

Definition pat_client_metrics : regex := Lit (txt "client.recordCompletedAppointment()").

Definition fix_barber_client_metrics (content : text) : text :=
  let content :=
    re_sub_t pat_barber_metrics
      [TLit (nl ++ txt "    // Note: Barber metrics are updated through domain events" ++ nl)]
      content in
  let content :=
    re_sub_t pat_client_metrics
      (plain "// TODO: client.recordAppointmentCompleted(service.price, new Date())")
      content in
  content.

Definition pat_cancel : regex := Lit (txt ".cancel(dto.reason)").
Definition pat_complete : regex := Lit (txt ".complete(dto.notes)").

Definition sub_cancel : text -> text :=
  re_sub_t pat_cancel (plain ".cancel(dto.reason || 'No reason provided')").

(** The substitution of [.complete(dto.notes)] by itself. *)
Definition sub_complete : text -> text :=
  re_sub_t pat_complete (plain ".complete(dto.notes)").

Definition fix_optional_string_args (content : text) : text :=
  let content := sub_cancel content in
  let content := sub_complete content in
  content.

(** [\s*// Add optional reason as notes if provided\s*if \(dto\.reason\)
    \{\s*appointment\.addNotes\(`No-show reason: \$\{dto\.reason\}`\)\s*\}] *)
Definition pat_add_notes : regex :=
  rx [Star CSpace; Lit (txt "// Add optional reason as notes if provided");
      Star CSpace; Lit (txt "if (dto.reason) {"); Star CSpace;
      Lit (txt "appointment.addNotes(`No-show reason: ${dto.reason}`)");
      Star CSpace; Lit (txt "}")].

Definition fix_appointment_add_notes (content : text) : text :=
  let content :=
    re_sub_t pat_add_notes
      [TLit (nl ++ txt "    // Note: Reason handling would need to be added to Appointment entity")]
      content in
  content.

Definition fix_barber_schedule_iteration (content : text) : text := content.

(** The fix functions in the order [process_file] calls them. *)
Definition fixes : list (text -> text) :=
  [fix_datetime_validation; fix_barber_specialties; fix_barber_is_available_at;
   fix_payment_info_create; fix_barber_client_metrics; fix_optional_string_args;
   fix_appointment_add_notes; fix_barber_schedule_iteration].

(** The body of the [try] block of [process_file] between the read and
    the comparison with [original]. *)
Definition fix_content (content : text) : text :=
  let content := fix_datetime_validation content in
  let content := fix_barber_specialties content in
  let content := fix_barber_is_available_at content in
  let content := fix_payment_info_create content in
  let content := fix_barber_client_metrics content in
  let content := fix_optional_string_args content in
  let content := fix_appointment_add_notes content in
  let content := fix_barber_schedule_iteration content in
  content.

(** What [fix_payment_info_create] receives from the three fix functions
    that [process_file] runs before it. *)
Definition before_payment (content : text) : text :=
  fix_barber_is_available_at (fix_barber_specialties (fix_datetime_validation content)).

(** The patterns configured in this script. *)
Definition patterns : list regex :=
  [pat_datetime_validation; pat_datetime_value; pat_specialties_some;
   pat_required_skills; pat_is_available_at; pat_payment_create;
   pat_payment_import; pat_barber_metrics; pat_client_metrics; pat_cancel;
   pat_complete; pat_add_notes].

Definition BASE_DIR : path :=
  ["Users"; "federiconicolascarrizo"; "Documents"; "Repositorios"; "barberia";
   "packages"; "application"; "src"; "use-cases"].

Definition process_file : path -> M bool := process_file_with (map total fixes).

Definition main : M unit :=
  print (Banner "Fase 2: Correcciones especificas") ;;;
  print Rule ;;;
  files <- glob BASE_DIR (Deep "" ".use-case.ts") ;;
  print (Found (length files)) ;;;
  print Rule ;;;
  corrected <- count_loop process_file (sorted files) 0 ;;
  print Rule ;;;
  print Completed ;;;
  print (Summary corrected (length files)).

End Phase2.

(** ** The three scripts side by side *)

Inductive script := FixRepositories | FixUseCases | FixUseCasesPhase2.

(** The functions a script applies to a file's content, in the order of the
    source. *)
Definition script_fixes (s : script) : list (text -> text) :=
  match s with
  | FixRepositories =>
      [Repositories.sub_datetime_import; Repositories.sub_specialty_import;
       Repositories.sub_assign; Repositories.sub_version;
       Repositories.sub_return; Repositories.sub_todate]
  | FixUseCases => UseCases.fixes
  | FixUseCasesPhase2 => Phase2.fixes
  end.

(** What a script makes of a file's content. *)
Definition script_fix (s : script) : text -> text :=
  match s with
  | FixRepositories => Repositories.fix_content
  | FixUseCases => UseCases.fix_content
  | FixUseCasesPhase2 => Phase2.fix_content
  end.

Definition script_patterns (s : script) : list regex :=
  match s with
  | FixRepositories => Repositories.patterns
  | FixUseCases => UseCases.patterns
  | FixUseCasesPhase2 => Phase2.patterns
  end.

(** The per-file function of a script. *)
Definition script_process (s : script) : path -> M bool :=
  match s with
  | FixRepositories => Repositories.fix_repository_file
  | FixUseCases => UseCases.process_file
  | FixUseCasesPhase2 => Phase2.process_file
  end.

Definition script_main (s : script) : M unit :=
  match s with
  | FixRepositories => Repositories.main
  | FixUseCases => UseCases.main
  | FixUseCasesPhase2 => Phase2.main
  end.

(** No pattern of the list matches anywhere in the content. *)
Definition no_pattern_matches (rs : list regex) (c : text) : bool :=
  forallb (fun r => match search r c with
                    | None => true
                    | Some _ => false
                    end) rs.

(** [fix_payment_info_create] is followed by these four fix functions. *)
Definition after_payment (content : text) : text :=
  Phase2.fix_barber_schedule_iteration
    (Phase2.fix_appointment_add_notes
       (Phase2.fix_optional_string_args
          (Phase2.fix_barber_client_metrics content))).

(** The content on which [fix_payment_info_create] evaluates its guard:
    what the earlier fix functions and its own first substitution made of
    the original. *)
Definition content_at_guard (original : text) : text :=
  Phase2.sub_payment_create (Phase2.before_payment original).

(** ** The ways of a file through a runner *)

(** What a runner does with an exception: [process_file] catches it,
    prints it and returns [False]; [fix_repository_file] lets it go. *)
Definition handler := exn -> result bool * list event.
Definition caught : handler := fun e => (Ok false, [Print (Error e)]).
Definition propagated : handler := fun e => (Raise e, []).

(** [file_step h fixes p w r w' evs]: on the file system [w], handling
    [p] ends with [r], leaves the file system [w'] and adds the events
    [evs].  One constructor per way through the function. *)
Inductive file_step (h : handler) (fixes : list fixfn) (p : path) (w : fsys)
  : result bool -> fsys -> list event -> Prop :=
| step_missing :
    files w !! p = None ->
    file_step h fixes p w (fst (h FileNotFoundError)) w
      ([Print (Processing (name p)); OpenRead p] ++ snd (h FileNotFoundError))
| step_unreadable f e :
    files w !! p = Some f -> f_read_error f = Some e ->
    file_step h fixes p w (fst (h e)) w
      ([Print (Processing (name p)); OpenRead p] ++ snd (h e))
| step_fix_raises f e :
    files w !! p = Some f -> f_read_error f = None ->
    apply_fixes fixes (f_text f) = Raise e ->
    file_step h fixes p w (fst (h e)) w
      ([Print (Processing (name p)); OpenRead p] ++ snd (h e))
| step_unchanged f :
    files w !! p = Some f -> f_read_error f = None ->
    apply_fixes fixes (f_text f) = Ok (f_text f) ->
    file_step h fixes p w (Ok false) w
      [Print (Processing (name p)); OpenRead p; Print (NoChanges (name p))]
| step_write_fails f c e :
    files w !! p = Some f -> f_read_error f = None ->
    apply_fixes fixes (f_text f) = Ok c -> c <> f_text f ->
    f_write_error f = Some e ->
    file_step h fixes p w (fst (h e)) w
      ([Print (Processing (name p)); OpenRead p; OpenWrite p] ++ snd (h e))
| step_written f c :
    files w !! p = Some f -> f_read_error f = None ->
    apply_fixes fixes (f_text f) = Ok c -> c <> f_text f ->
    f_write_error f = None ->
    file_step h fixes p w (Ok true) (set_text p c w)
      [Print (Processing (name p)); OpenRead p; OpenWrite p; Print (Fixed (name p))].

(** ** Reading a trace *)

Definition count_events (which : event -> bool) (tr : list event) : nat :=
  length (List.filter which tr).

Definition is_open_write (p : path) (e : event) : bool :=
  match e with
  | OpenWrite q => bool_decide (p = q)
  | _ => false
  end.

(** How often [p] was opened for writing. *)
Definition count_writes (p : path) (tr : list event) : nat :=
  count_events (is_open_write p) tr.

Definition is_fixed (e : event) : bool :=
  match e with Print (Fixed _) => true | _ => false end.
Definition is_unchanged (e : event) : bool :=
  match e with Print (NoChanges _) => true | _ => false end.
Definition is_error (e : event) : bool :=
  match e with Print (Error _) => true | _ => false end.

(** Per-file reports of a run: files written, left alone, failed. *)
Definition count_fixed (tr : list event) : nat := count_events is_fixed tr.
Definition count_unchanged (tr : list event) : nat := count_events is_unchanged tr.
Definition count_errors (tr : list event) : nat := count_events is_error tr.

(** The files a run started on, in order. *)
Fixpoint visited (tr : list event) : list string :=
  match tr with
  | [] => []
  | Print (Processing n) :: tr' => n :: visited tr'
  | _ :: tr' => visited tr'
  end.

(** The files opened for reading, in order. *)
Fixpoint opened_for_reading (tr : list event) : list path :=
  match tr with
  | [] => []
  | OpenRead p :: tr' => p :: opened_for_reading tr'
  | _ :: tr' => opened_for_reading tr'
  end.

(** The end-of-run summary line, if one was printed. *)
Fixpoint summary_of (tr : list event) : option (nat * nat) :=
  match tr with
  | [] => None
  | Print (Summary k n) :: _ => Some (k, n)
  | _ :: tr' => summary_of tr'
  end.

(** The files a script's [main] finds. *)
Definition found_files (s : script) (w : fsys) : list path :=
  match s with
  | FixRepositories => glob_files Repositories.repo_dir (Here "prisma-" ".repository.ts") w
  | FixUseCases => glob_files UseCases.BASE_DIR (Deep "" ".use-case.ts") w
  | FixUseCasesPhase2 => glob_files Phase2.BASE_DIR (Deep "" ".use-case.ts") w
  end.

(** The order in which a script's [main] takes them. *)
Definition visit_order (s : script) (w : fsys) : list path :=
  match s with
  | FixRepositories => found_files s w
  | _ => sorted (found_files s w)
  end.

(** The state a loop over [ps] leaves behind. *)
Definition after_loop (body : path -> M bool) (ps : list path) (st : state) : state :=
  snd (count_loop body ps 0 st).

(** Everything a run of a script's [main] does, started on the file system
    [w] with nothing printed yet. *)
Definition run_trace (s : script) (w : fsys) : list event :=
  trace (snd (script_main s (State w []))).

(** ** Sample contents and file systems *)

Definition plain_file (c : text) : file := File c None None.

(** An assignment from a mapper call, on a line of its own. *)
Definition sample_assign : text := nl ++ txt "  const e = FooMapper.toDomain(raw)".

(** A file that imports [PaymentInfo] and names [PaymentMethod] only inside
    the call that the first substitution removes. *)
Definition sample_payment : text :=
  txt "import { PaymentInfo } from './payment'" ++ nl
  ++ txt "const p = PaymentInfo.create({ method: PaymentMethod.CASH })".

Definition repo_a : path := Repositories.repo_dir ++ ["prisma-a.repository.ts"].
Definition repo_b : path := Repositories.repo_dir ++ ["prisma-b.repository.ts"].

(** Two repository files that both need the [.toDate()] fix; the first one
    listed cannot be read. *)
Definition fs_unreadable_first : fsys :=
  Fsys {[ Repositories.repo_dir ]}
       (<[repo_a := File (txt "a.toDate()") (Some PermissionError) None]>
          (<[repo_b := plain_file (txt "b.toDate()")]> ∅))
       [repo_a; repo_b] ∅.

(** Two readable repository files, listed by the operating system with
    [prisma-b] first. *)
Definition fs_listed_b_first : fsys :=
  Fsys {[ Repositories.repo_dir ]}
       (<[repo_a := plain_file (txt "a.toDate()")]>
          (<[repo_b := plain_file (txt "b.toDate()")]> ∅))
       [repo_b; repo_a] ∅.

Definition use_case_a : path := UseCases.BASE_DIR ++ ["booking"; "a.use-case.ts"].

(** A file system without the use-case directory. *)
Definition fs_no_base_dir : fsys :=
  Fsys ∅ (<[use_case_a := plain_file (txt "x.getValue()")]> ∅) [use_case_a] ∅.

(** One use-case file that needs no fix, readable or not. *)
Definition fs_one_clean : fsys :=
  Fsys {[ UseCases.BASE_DIR ]} (<[use_case_a := plain_file (txt "done")]> ∅) [use_case_a] ∅.
Definition fs_one_unreadable : fsys :=
  Fsys {[ UseCases.BASE_DIR ]}
       (<[use_case_a := File (txt "done") (Some UnicodeDecodeError) None]> ∅)
       [use_case_a] ∅.

(** One use-case file whose [.toDate()] call gets rewritten. *)
Definition fs_one_dirty : fsys :=
  Fsys {[ UseCases.BASE_DIR ]} (<[use_case_a := plain_file (txt "x.toDate()")]> ∅)
       [use_case_a] ∅.

(** A file system in which a file, not a directory, is at the path of the
    repositories directory. *)
Definition fs_root_is_file : fsys :=
  Fsys ∅ (<[Repositories.repo_dir := plain_file (txt "x.toDate()")]> ∅)
       [Repositories.repo_dir] ∅.

(** A file whose import of [PaymentInfo] matches the guarded pattern while
    [PaymentMethod] is in use elsewhere. *)
Definition sample_payment_guarded : text :=
  txt "import { PaymentInfo } from './payment'; use(PaymentMethod.CASH)".

(** A fix function that always fails, between two that work. *)
Definition failing_fixes : list fixfn :=
  [total UseCases.fix_datetime_methods;
   (fun _ => Raise (RuntimeError "replacement failed"));
   total UseCases.fix_result_getvalue].

(** ** More about a run *)

(** [p] is opened, for reading or for writing. *)
Definition is_open (p : path) (e : event) : bool :=
  match e with
  | OpenRead q | OpenWrite q => bool_decide (p = q)
  | Print _ => false
  end.

Definition is_file_op (e : event) : bool :=
  match e with
  | Print _ => false
  | OpenRead _ | OpenWrite _ => true
  end.

(** The directory a script works in. *)
Definition root_of (s : script) : path :=
  match s with
  | FixRepositories => Repositories.repo_dir
  | FixUseCases => UseCases.BASE_DIR
  | FixUseCasesPhase2 => Phase2.BASE_DIR
  end.

(** What a script's [main] has printed when it first looks at its root
    ([exists] in fix-repositories.py, [glob] in the use-case scripts). *)
Definition main_banner (s : script) : list event :=
  match s with
  | FixRepositories => []
  | FixUseCases => [Print (Banner "Iniciando correccion de use cases..."); Print Rule]
  | FixUseCasesPhase2 => [Print (Banner "Fase 2: Correcciones especificas"); Print Rule]
  end.

(** What a script's [main] prints before its loop. *)
Definition main_prefix (s : script) (w : fsys) : list event :=
  match s with
  | FixRepositories =>
      if exists_at Repositories.repo_dir w
      then [Print (Found (length (found_files s w)))]
      else [Print (DirNotFound Repositories.repo_dir)]
  | FixUseCases =>
      [Print (Banner "Iniciando correccion de use cases..."); Print Rule;
       Print (Found (length (found_files s w))); Print Rule]
  | FixUseCasesPhase2 =>
      [Print (Banner "Fase 2: Correcciones especificas"); Print Rule;
       Print (Found (length (found_files s w))); Print Rule]
  end.

(** What it prints after the loop, having counted [k] changed files. *)
Definition main_suffix (s : script) (w : fsys) (k : nat) : list event :=
  match s with
  | FixRepositories =>
      if exists_at Repositories.repo_dir w
      then [Print (Summary k (length (found_files s w)))]
      else []
  | FixUseCases =>
      [Print Rule; Print Completed; Print (Summary k (length (found_files s w)));
       Print NextStep]
  | FixUseCasesPhase2 =>
      [Print Rule; Print Completed; Print (Summary k (length (found_files s w)))]
  end.

(** The least number of characters a match of the pattern takes. *)
Fixpoint min_len (r : regex) : nat :=
  match r with
  | Lit l => length l
  | One _ | Plus _ => 1
  | Star _ | Backref _ => 0
  | Cat r1 r2 => min_len r1 + min_len r2
  | Group _ r1 => min_len r1
  end.

(** Three use-case files, listed out of order: one cannot be read, one
    needs a fix, one needs none; and a file that is no use case. *)
Definition use_case_b : path := UseCases.BASE_DIR ++ ["b.use-case.ts"].
Definition use_case_c : path := UseCases.BASE_DIR ++ ["booking"; "c.use-case.ts"].
Definition other_file : path := UseCases.BASE_DIR ++ ["booking"; "helper.ts"].

Definition fs_three_use_cases : fsys :=
  Fsys {[ UseCases.BASE_DIR ]}
       (<[use_case_b := File (txt "x.getValue()") (Some PermissionError) None]>
          (<[use_case_c := plain_file (txt "y.getValue()")]>
             (<[use_case_a := plain_file (txt "done")]>
                (<[other_file := plain_file (txt "z.getValue()")]> ∅))))
       [use_case_c; other_file; use_case_b; use_case_a] ∅.

(** The same files listed in another order. *)
Definition fs_three_use_cases_relisted : fsys :=
  Fsys {[ UseCases.BASE_DIR ]} (files fs_three_use_cases)
       [use_case_a; use_case_b; other_file; use_case_c] ∅.

(** [p] comes before [q], or is [q], in the order of [sorted]. *)
Definition path_le (p q : path) : Prop := path_leb p q = true.

(** The file system with another listing order. *)
Definition relisted (l : list path) (w : fsys) : fsys :=
  Fsys (dirs w) (files w) l (denied w).

(** [re.sub] of a literal pattern with a literal replacement. *)
Definition literal_rule (p r : text) (s : text) : text := re_sub_t (Lit p) [TLit r] s.

(** The literal pieces of a pattern: every match contains each of them. *)
Fixpoint literals (r : regex) : list text :=
  match r with
  | Lit l => [l]
  | Cat r1 r2 => literals r1 ++ literals r2
  | Group _ r1 => literals r1
  | One _ | Star _ | Plus _ | Backref _ => []
  end.

(** Some literal piece of [r] does not occur in [c]. *)
Definition lacks_a_literal (c : text) (r : regex) : bool :=
  existsb (fun l => negb (contains l c)) (literals r).

(** ** Where a text can occur after a replacement *)

(** [a] is the beginning of [b]. *)
Definition is_prefix (a b : text) : bool :=
  match strip_prefix a b with
  | Some _ => true
  | None => false
  end.

(** One of the two texts is the beginning of the other. *)
Definition prefix_related (a b : text) : bool := is_prefix a b || is_prefix b a.

(** The non-empty ends of a text, longest first. *)
Fixpoint tails_ne (l : text) : list text :=
  match l with
  | [] => []
  | c :: l' => (c :: l') :: tails_ne l'
  end.

(** No occurrence of [q] can share a character with an inserted [r]: no
    end of [q] is the beginning of [r] or has [r] as its beginning, and
    no end of [r] is the beginning of [q] or has [q] as its beginning. *)
Definition cannot_overlap (q r : text) : bool :=
  forallb (fun q' => negb (prefix_related q' r)) (tails_ne q)
  && forallb (fun r' => negb (prefix_related q r')) (tails_ne r).

(** No occurrence of [q] in [x ++ s] starts within [x]. *)
Fixpoint none_starts (q x s : text) : bool :=
  match x with
  | [] => true
  | c :: x' => negb (is_prefix q (x ++ s)) && none_starts q x' s
  end.

(** None of the texts occurs in [c]. *)
Definition absent (qs : list text) (c : text) : bool :=
  forallb (fun q => negb (contains q c)) qs.

(** A substitution step of a script, by what is known of it: a literal
    replaced by a literal; a substitution that acts only on contents in
    which the text [q] occurs; a substitution that returns every content
    as it is. *)
Inductive step :=
| Rewrites (p r : text)
| Needs (q : text) (f : text -> text)
| Same (f : text -> text).

Definition run_step (st : step) : text -> text :=
  match st with
  | Rewrites p r => literal_rule p r
  | Needs _ f | Same f => f
  end.

Definition run_steps (sts : list step) (c : text) : text :=
  fold_left (fun acc st => run_step st acc) sts c.

Definition step_ok (st : step) : Prop :=
  match st with
  | Rewrites _ _ => True
  | Needs q f => forall c, contains q c = false -> f c = c
  | Same f => forall c, f c = c
  end.

(** The texts without which the [Needs] steps do nothing. *)
Definition keys (sts : list step) : list text :=
  flat_map (fun st => match st with Needs q _ => [q] | _ => [] end) sts.

(** The patterns of the literal rules. *)
Definition rewritten (sts : list step) : list text :=
  flat_map (fun st => match st with Rewrites p _ => [p] | _ => [] end) sts.

Definition not_empty (l : text) : bool :=
  match l with
  | [] => false
  | _ :: _ => true
  end.

(** Every literal rule of the list puts in a replacement that can overlap
    neither its own pattern, nor a key, nor the pattern of a literal rule
    before it ([done] holds these). *)
Fixpoint settles (ks done : list text) (sts : list step) : bool :=
  match sts with
  | [] => true
  | Rewrites p r :: rest =>
      not_empty p && cannot_overlap p r
      && forallb (fun q => cannot_overlap q r) (ks ++ done)
      && settles ks (p :: done) rest
  | _ :: rest => settles ks done rest
  end.

(** ** The substitutions of a script, step by step *)

(** The steps of the three scripts, each substitution with what is known of
    it.  A [Needs] step carries the substitution as the script has it and
    a text that every match of its pattern contains. *)
Definition repositories_steps : list step :=
  [Rewrites (txt "import { DateTime } from '@barbershop/domain/value-objects/datetime.vo'")
            (txt "import { DateTime } from 'luxon'");
   Needs (txt "import { Specialty } from '@barbershop/domain/value-objects/specialty.vo'")
         Repositories.sub_specialty_import;
   Needs (txt "Mapper.toDomain(") Repositories.sub_assign;
   Needs (txt ".version") Repositories.sub_version;
   Needs (txt "Mapper.toDomain(") Repositories.sub_return;
   Rewrites (txt ".toDate()") (txt ".toJSDate()")].

Definition usecases_steps : list step :=
  [Rewrites (txt "import { DateTime } from '@barbershop/domain/value-objects/datetime.vo'")
            (txt "import { DateTime } from 'luxon'");
   Needs (txt "const appointmentIdOrError = AppointmentId.create(")
         (re_sub_t UseCases.pat_appointment_id
            [TLit (txt "const appointmentId = AppointmentId.create("); TGroup 1; TLit (txt ")")]);
   Needs (txt "const barberIdOrError = BarberId.create(")
         (re_sub_t UseCases.pat_barber_id
            [TLit (txt "const barberId = BarberId.create("); TGroup 1; TLit (txt ")")]);
   Needs (txt "const clientIdOrError = ClientId.create(")
         (re_sub_t UseCases.pat_client_id
            [TLit (txt "const clientId = ClientId.create("); TGroup 1; TLit (txt ")")]);
   Needs (txt "const serviceIdOrError = ServiceId.create(")
         (re_sub_t UseCases.pat_service_id
            [TLit (txt "const serviceId = ServiceId.create("); TGroup 1; TLit (txt ")")]);
   Rewrites (txt "barber.isActive") (txt "barber.status.isActive()");
   Rewrites (txt "client.isActive") (txt "client.status.isActive()");
   Needs (txt "appointment.status")
         (re_sub_t UseCases.pat_appointment_status (plain "appointment.status"));
   Needs (txt "apt.status") (re_sub_t UseCases.pat_apt_status (plain "apt.status"));
   Rewrites (txt ".toDate()") (txt ".toJSDate()");
   Needs (txt "DateTime.create(")
         (re_sub_t UseCases.pat_datetime_create
            [TLit (txt "DateTime.fromJSDate("); TGroup 1; TLit (txt ")")]);
   Needs (txt "TimeSlot.create({")
         (re_sub_t UseCases.pat_timeslot_short (plain "TimeSlot.create(startTime, endTime)"));
   Needs (txt "TimeSlot.create({")
         (re_sub_t UseCases.pat_timeslot_long
            [TLit (txt "TimeSlot.create("); TGroup 1; TLit (txt ", "); TGroup 2;
             TLit (txt ")")]);
   Rewrites (txt ".getValue()") (txt ".value")].

Definition phase2_steps : list step :=
  [Needs (txt "DateTime.fromJSDate(")
         (re_sub Phase2.pat_datetime_validation Phase2.datetime_validation_replacement);
   Needs (txt "DateTime.fromJSDate(")
         (re_sub Phase2.pat_datetime_value
            (fun m => str_replace (txt ".value") (txt "") (group m 0)));
   Needs (txt "barber.specialties.some(specialty => specialty.value === ")
         Phase2.sub_specialties_some;
   Same Phase2.sub_required_skills;
   Needs (txt "barber.isAvailableAt(")
         (re_sub_t Phase2.pat_is_available_at (plain "barber.isAvailable()"));
   Needs (txt "PaymentInfo.create({") Phase2.sub_payment_create;
   Needs (txt "import { PaymentInfo }")
         (fun content =>
            if Phase2.payment_guard content then Phase2.sub_payment_import content
            else content);
   Needs (txt "barber.recordCompletedAppointment()")
         (re_sub_t Phase2.pat_barber_metrics
            [TLit (nl ++ txt "    // Note: Barber metrics are updated through domain events"
                      ++ nl)]);
   Rewrites (txt "client.recordCompletedAppointment()")
            (txt "// TODO: client.recordAppointmentCompleted(service.price, new Date())");
   Rewrites (txt ".cancel(dto.reason)") (txt ".cancel(dto.reason || 'No reason provided')");
   Same Phase2.sub_complete;
   Needs (txt "appointment.addNotes(`No-show reason: ${dto.reason}`)")
         Phase2.fix_appointment_add_notes;
   Same Phase2.fix_barber_schedule_iteration].

Definition script_steps (s : script) : list step :=
  match s with
  | FixRepositories => repositories_steps
  | FixUseCases => usecases_steps
  | FixUseCasesPhase2 => phase2_steps
  end.


(** The texts a content must be free of for a second application of the
    script to be known to change nothing. *)
Definition script_keys (s : script) : list text :=
  match s with
  | FixRepositories =>
      [txt "import { Specialty } from '@barbershop/domain/value-objects/specialty.vo'";
       txt "Mapper.toDomain("; txt ".version"]
  | FixUseCases =>
      [txt "const appointmentIdOrError = AppointmentId.create(";
       txt "const barberIdOrError = BarberId.create(";
       txt "const clientIdOrError = ClientId.create(";
       txt "const serviceIdOrError = ServiceId.create(";
       txt "appointment.status"; txt "apt.status"; txt "DateTime.create(";
       txt "TimeSlot.create({"]
  | FixUseCasesPhase2 =>
      [txt "DateTime.fromJSDate(";
       txt "barber.specialties.some(specialty => specialty.value === ";
       txt "barber.isAvailableAt("; txt "PaymentInfo.create({";
       txt "import { PaymentInfo }"; txt "barber.recordCompletedAppointment()";
       txt "appointment.addNotes(`No-show reason: ${dto.reason}`)"]
  end.

(** What the functions after [f] make of what [f] makes of what the
    functions before it made of the content. *)
Definition in_order (pre : list (text -> text)) (f : text -> text)
    (post : list (text -> text)) (content : text) : text :=
  fold_left (fun acc g => g acc) post (f (fold_left (fun acc g => g acc) pre content)).

Definition sample_version : text := txt "a.version.version".
Definition sample_nested_import : text :=
  txt "import { Specialty } from '@barbershop/domain/value-objects/spec"
  ++ txt "import { Specialty } from '@barbershop/domain/value-objects/specialty.vo'"
  ++ txt "ialty.vo'".
Definition sample_status : text := txt "apt.status.getValue()".
Definition sample_datetime_value : text := txt "DateTime.fromJSDate(x).value.value".
Definition sample_calls : text :=
  txt "if (barber.isActive) return slot.toDate().getValue()".

(** A use-case file as a first run of fix-usecases.py leaves it. *)
Definition fs_after_first_run : fsys :=
  Fsys {[ UseCases.BASE_DIR ]}
       (<[use_case_a := plain_file (script_fix FixUseCases sample_calls)]> ∅)
       [use_case_a] ∅.

(** * Properties of the matcher and of [re.sub] *)

Lemma strip_prefix_app (p s rest : text) :
  strip_prefix p s = Some rest -> s = p ++ rest.
Proof.
  revert s; induction p as [|a p IH]; intros s H; simpl in H.
  - now inversion H.
  - destruct s as [|b s]; [discriminate|].
    unfold ascii_eqb in H. destruct (Ascii.eqb_spec a b) as [->|]; [|discriminate].
    simpl. f_equal. now apply IH.
Qed.

Lemma strip_prefix_self (p rest : text) : strip_prefix p (p ++ rest) = Some rest.
Proof.
  induction p as [|a p IH]; simpl; [reflexivity|].
  unfold ascii_eqb. now rewrite Ascii.eqb_refl.
Qed.

(** Whatever the matcher answers, the continuation answered it. *)
Lemma star_k_inv {R : Type} (c : cset) (s : text) (k : text -> option R) (x : R) :
  star_k c s k = Some x -> exists s', k s' = Some x.
Proof.
  induction s as [|a s IH]; simpl; intros H.
  - eauto.
  - destruct (cset_mem c a); [|eauto].
    destruct (star_k c s k) eqn:E; [|eauto].
    inversion H; subst. now apply IH.
Qed.

Lemma mt_inv {R : Type} (r : regex) :
  forall (s : text) (g : groups) (k : text -> groups -> option R) (x : R),
    mt r s g k = Some x -> exists s' g', k s' g' = Some x.
Proof.
  induction r as [l|c|c|c|r1 IH1 r2 IH2|n r1 IH1|n]; intros s g k x H; simpl in H.
  - destruct (strip_prefix l s); [eauto|discriminate].
  - destruct s as [|a s]; [discriminate|]. destruct (cset_mem c a); [eauto|discriminate].
  - apply star_k_inv in H. destruct H as [s' H]. eauto.
  - destruct s as [|a s]; [discriminate|]. destruct (cset_mem c a); [|discriminate].
    apply star_k_inv in H. destruct H as [s' H]. eauto.
  - apply IH1 in H. destruct H as (s1 & g1 & H). now apply IH2 in H.
  - apply IH1 in H. destruct H as (s1 & g1 & H). eauto.
  - destruct (group_lookup n g) as [t|]; [|discriminate].
    destruct (strip_prefix t s); [eauto|discriminate].
Qed.

(** A match is never longer than the text it starts in. *)
Lemma match_at_length (r : regex) (s : text) (n : nat) (g : groups) :
  match_at r s = Some (n, g) -> n <= length s.
Proof.
  unfold match_at. intros H. apply mt_inv in H. destruct H as (s' & g' & H).
  inversion H; subst. lia.
Qed.

(** A literal pattern matches exactly its own text and sets no group. *)
Lemma match_at_Lit (l s : text) (n : nat) (g : groups) :
  match_at (Lit l) s = Some (n, g) -> firstn n s = l /\ g = [].
Proof.
  unfold match_at; simpl. destruct (strip_prefix l s) as [s'|] eqn:E; [|discriminate].
  intros H; inversion H; subst; clear H. apply strip_prefix_app in E. subst s.
  split; [|reflexivity].
  rewrite length_app. replace (length l + length s' - length s') with (length l) by lia.
  now rewrite take_app_length.
Qed.

(** Dropping the rest of a match is the same as starting again after it. *)
Lemma sub_go_skip (r : regex) (f : matchobj -> text) (s : text) :
  forall k, k <= length s -> sub_go r f s k = sub_go r f (skipn k s) 0.
Proof.
  induction s as [|a s IH]; intros k Hk; simpl in Hk.
  - now replace k with 0 by lia.
  - destruct k as [|k]; [reflexivity|]. simpl. apply IH. lia.
Qed.

(** [re.sub] leaves alone a text in which the pattern matches nowhere. *)
Lemma re_sub_nomatch (r : regex) (f : matchobj -> text) (s : text) :
  search r s = None -> re_sub r f s = s.
Proof.
  unfold re_sub. induction s as [|a s IH]; simpl; intros H.
  - destruct (match_at r []); [discriminate|reflexivity].
  - destruct (match_at r (a :: s)); [discriminate|].
    destruct (search r s) as [[i m]|]; [discriminate|].
    now rewrite IH.
Qed.

(** [re.sub] is the identity when every match is replaced by its own
    text. *)
Lemma re_sub_same (r : regex) (f : matchobj -> text) :
  (forall t n g, match_at r t = Some (n, g) -> f (MatchObj (firstn n t) g) = firstn n t) ->
  forall s, re_sub r f s = s.
Proof.
  intros Hf s. unfold re_sub.
  remember (length s) as len eqn:Hlen.
  revert s Hlen. induction len as [len IH] using lt_wf_ind. intros s Hlen.
  destruct s as [|a s]; simpl.
  - destruct (match_at r []) as [[n g]|] eqn:E; [|reflexivity].
    apply Hf in E. now rewrite take_nil in E.
  - destruct (match_at r (a :: s)) as [[[|n] g]|] eqn:E.
    + apply Hf in E. simpl in E. rewrite E. simpl. f_equal.
      apply (IH (length s)); [simpl in Hlen; lia|reflexivity].
    + pose proof (match_at_length _ _ _ _ E) as Hn. simpl in Hn.
      apply Hf in E. simpl in E. rewrite E.
      rewrite sub_go_skip by lia.
      rewrite (IH (length (skipn n s))); [| |reflexivity].
      * simpl. f_equal. apply take_drop.
      * rewrite length_drop. simpl in Hlen. lia.
    + f_equal. apply (IH (length s)); [simpl in Hlen; lia|reflexivity].
Qed.

(** In particular when a literal is replaced by the same literal. *)
Lemma re_sub_t_literal_same (l : text) (s : text) :
  re_sub_t (Lit l) [TLit l] s = s.
Proof.
  unfold re_sub_t. apply re_sub_same. intros t n g H.
  apply match_at_Lit in H. destruct H as [H _]. simpl. rewrite H. apply app_nil_r.
Qed.

(** * Properties of the fix functions *)

Lemma no_pattern_matches_In (rs : list regex) (c : text) (r : regex) :
  no_pattern_matches rs c = true -> In r rs -> search r c = None.
Proof.
  unfold no_pattern_matches. rewrite forallb_forall. intros H Hr.
  specialize (H r Hr). now destruct (search r c).
Qed.

(** Rewrites the [re.sub] call on pattern [r] away when no configured
    pattern matches. *)
Ltac skip_sub H r :=
  rewrite (re_sub_nomatch r)
    by (apply (no_pattern_matches_In _ _ _ H); cbn [In]; tauto).

Lemma repositories_fix_nomatch (c : text) :
  no_pattern_matches Repositories.patterns c = true -> Repositories.fix_content c = c.
Proof.
  intros H. unfold Repositories.patterns in H.
  unfold Repositories.fix_content, Repositories.sub_datetime_import,
    Repositories.sub_specialty_import, Repositories.sub_assign,
    Repositories.sub_version, Repositories.sub_return, Repositories.sub_todate,
    re_sub_t.
  skip_sub H Repositories.pat_datetime_import.
  skip_sub H Repositories.pat_specialty_import.
  skip_sub H Repositories.pat_assign.
  skip_sub H Repositories.pat_version.
  skip_sub H Repositories.pat_return.
  skip_sub H Repositories.pat_todate.
  reflexivity.
Qed.

Lemma usecases_fix_nomatch (c : text) :
  no_pattern_matches UseCases.patterns c = true -> UseCases.fix_content c = c.
Proof.
  intros H. unfold UseCases.patterns in H.
  unfold UseCases.fix_content, UseCases.fix_datetime_imports,
    UseCases.fix_id_vo_usage, UseCases.fix_entity_apis,
    UseCases.fix_datetime_methods, UseCases.fix_timeslot_create,
    UseCases.fix_result_getvalue, re_sub_t.
  skip_sub H UseCases.pat_datetime_import.
  skip_sub H UseCases.pat_appointment_id.
  skip_sub H UseCases.pat_barber_id.
  skip_sub H UseCases.pat_client_id.
  skip_sub H UseCases.pat_service_id.
  skip_sub H UseCases.pat_barber_active.
  skip_sub H UseCases.pat_client_active.
  skip_sub H UseCases.pat_appointment_status.
  skip_sub H UseCases.pat_apt_status.
  skip_sub H UseCases.pat_todate.
  skip_sub H UseCases.pat_datetime_create.
  skip_sub H UseCases.pat_timeslot_short.
  skip_sub H UseCases.pat_timeslot_long.
  skip_sub H UseCases.pat_getvalue.
  reflexivity.
Qed.

Lemma phase2_fix_nomatch (c : text) :
  no_pattern_matches Phase2.patterns c = true -> Phase2.fix_content c = c.
Proof.
  intros H. unfold Phase2.patterns in H.
  unfold Phase2.fix_content, Phase2.fix_datetime_validation,
    Phase2.fix_barber_specialties, Phase2.sub_specialties_some,
    Phase2.sub_required_skills, Phase2.fix_barber_is_available_at,
    Phase2.fix_payment_info_create, Phase2.sub_payment_create,
    Phase2.sub_payment_import, Phase2.fix_barber_client_metrics,
    Phase2.fix_optional_string_args, Phase2.sub_cancel, Phase2.sub_complete,
    Phase2.fix_appointment_add_notes, Phase2.fix_barber_schedule_iteration,
    re_sub_t.
  skip_sub H Phase2.pat_datetime_validation.
  skip_sub H Phase2.pat_datetime_value.
  skip_sub H Phase2.pat_specialties_some.
  skip_sub H Phase2.pat_required_skills.
  skip_sub H Phase2.pat_is_available_at.
  skip_sub H Phase2.pat_payment_create.
  skip_sub H Phase2.pat_payment_import.
  replace (if Phase2.payment_guard c then c else c) with c
    by now destruct (Phase2.payment_guard c).
  skip_sub H Phase2.pat_barber_metrics.
  skip_sub H Phase2.pat_client_metrics.
  skip_sub H Phase2.pat_cancel.
  skip_sub H Phase2.pat_complete.
  skip_sub H Phase2.pat_add_notes.
  reflexivity.
Qed.

(** A content in which no configured pattern matches is a fixed point of
    its script. *)
Lemma script_fix_nomatch (s : script) (c : text) :
  no_pattern_matches (script_patterns s) c = true -> script_fix s c = c.
Proof.
  destruct s; simpl.
  - apply repositories_fix_nomatch.
  - apply usecases_fix_nomatch.
  - apply phase2_fix_nomatch.
Qed.

(** A script's transformation is its fix functions folded over the
    content in their declared order. *)
Lemma script_fix_fold (s : script) (c : text) :
  script_fix s c = fold_left (fun acc f => f acc) (script_fixes s) c.
Proof. destruct s; reflexivity. Qed.

Lemma apply_fixes_total (fs : list (text -> text)) (c : text) :
  apply_fixes (map total fs) c = Ok (fold_left (fun acc f => f acc) fs c).
Proof.
  revert c; induction fs as [|f fs IH]; intros c; simpl; [reflexivity|].
  unfold total at 1. apply IH.
Qed.

(** ** C4: what the guard of the import rule looks at *)

(** C4, counterexample.  The guard is false on the content read from disk
    ([PaymentMethod] occurs in it), and still the guarded rule rewrites the
    import: the first substitution has removed [PaymentMethod] by the time
    the guard is evaluated. *)
Lemma payment_guard_false_on_original_rule_fires :
  Phase2.payment_guard sample_payment = false /\
  Phase2.fix_payment_info_create (Phase2.before_payment sample_payment)
  <> Phase2.sub_payment_create (Phase2.before_payment sample_payment).
Proof.
  split.
  - vm_compute. reflexivity.
  - intros H. apply (f_equal (@length ascii)) in H. vm_compute in H. discriminate H.
Qed.

(** C4, amended.  The guard of the import rule is evaluated on the current
    content: the output of the fix functions that ran before and of the
    first substitution of [fix_payment_info_create].  When it is false
    there, the rule leaves that content as it is, whether or not its
    pattern matches, and the rest of the run continues from it. *)
Theorem payment_guard_on_current_content (original : text) :
  Phase2.payment_guard (content_at_guard original) = false ->
  Phase2.fix_payment_info_create (Phase2.before_payment original)
  = content_at_guard original /\
  Phase2.fix_content original = after_payment (content_at_guard original).
Proof.
  intros Hguard.
  assert (Hstep : Phase2.fix_payment_info_create (Phase2.before_payment original)
                  = content_at_guard original).
  { unfold Phase2.fix_payment_info_create. fold (content_at_guard original).
    now rewrite Hguard. }
  split; [exact Hstep|].
  unfold Phase2.fix_content, after_payment. fold (Phase2.before_payment original).
  now rewrite Hstep.
Qed.

(** The import pattern matches, the guard is false on the current content
    ([PaymentMethod] is used elsewhere), and the import stays. *)
Lemma payment_guard_on_current_content_witness :
  search Phase2.pat_payment_import sample_payment_guarded <> None /\
  Phase2.fix_content sample_payment_guarded = sample_payment_guarded.
Proof.
  split.
  - vm_compute. discriminate.
  - destruct (payment_guard_on_current_content sample_payment_guarded) as [_ H].
    + vm_compute. reflexivity.
    + rewrite H. vm_compute. reflexivity.
Defined.

(** ** C10: substitutions that change nothing *)

(** C10.  Replacing [.complete(dto.notes)] by itself, replacing a match by
    [m.group(0)], and [fix_barber_schedule_iteration] return every content
    unchanged; what the two fix functions around them return is decided by
    their other substitution alone. *)
Theorem identity_substitutions (content : text) :
  Phase2.sub_complete content = content /\
  Phase2.sub_required_skills content = content /\
  Phase2.fix_barber_schedule_iteration content = content /\
  Phase2.fix_optional_string_args content = Phase2.sub_cancel content /\
  Phase2.fix_barber_specialties content = Phase2.sub_specialties_some content.
Proof.
  assert (H1 : forall c, Phase2.sub_complete c = c).
  { intros c. unfold Phase2.sub_complete, Phase2.pat_complete, plain.
    apply re_sub_t_literal_same. }
  assert (H2 : forall c, Phase2.sub_required_skills c = c).
  { intros c. unfold Phase2.sub_required_skills. now apply re_sub_same. }
  repeat split.
  - apply H1.
  - apply H2.
  - unfold Phase2.fix_optional_string_args. apply H1.
  - unfold Phase2.fix_barber_specialties. apply H2.
Qed.

(** * Properties of the runners *)

(** ** One file *)

Lemma process_file_with_step (fixes : list fixfn) (p : path) (w : fsys) (tr : list event) :
  exists r w1 evs,
    process_file_with fixes p (State w tr) = (r, State w1 (tr ++ evs)) /\
    file_step caught fixes p w r w1 evs.
Proof.
  unfold process_file_with, bind, try_except, print, read_text, lift, write_text,
    ret, log; simpl.
  destruct (files w !! p) as [[c re we]|] eqn:Hf; simpl.
  - destruct re as [e|]; simpl.
    + do 3 eexists. rewrite <- !app_assoc. split; [reflexivity|].
      exact (step_unreadable caught fixes p w _ e Hf eq_refl).
    + destruct (apply_fixes fixes c) as [c'|e] eqn:Hfix; simpl.
      * destruct (decide (c' <> c)) as [Hne|Heq]; simpl.
        -- rewrite Hf. destruct we as [e|]; simpl.
           ++ do 3 eexists. rewrite <- !app_assoc. split; [reflexivity|].
              exact (step_write_fails caught fixes p w _ c' e Hf eq_refl Hfix Hne eq_refl).
           ++ do 3 eexists. rewrite <- !app_assoc. split; [reflexivity|].
              exact (step_written caught fixes p w _ c' Hf eq_refl Hfix Hne eq_refl).
        -- apply dec_stable in Heq. subst c'.
           do 3 eexists. rewrite <- !app_assoc. split; [reflexivity|].
           exact (step_unchanged caught fixes p w _ Hf eq_refl Hfix).
      * do 3 eexists. rewrite <- !app_assoc. split; [reflexivity|].
        exact (step_fix_raises caught fixes p w _ e Hf eq_refl Hfix).
  - do 3 eexists. rewrite <- !app_assoc. split; [reflexivity|].
    exact (step_missing caught fixes p w Hf).
Qed.

Lemma fix_repository_file_step (p : path) (w : fsys) (tr : list event) :
  exists r w1 evs,
    Repositories.fix_repository_file p (State w tr) = (r, State w1 (tr ++ evs)) /\
    file_step propagated [total Repositories.fix_content] p w r w1 evs.
Proof.
  unfold Repositories.fix_repository_file, bind, print, read_text, write_text,
    ret, log; simpl.
  destruct (files w !! p) as [[c re we]|] eqn:Hf; simpl.
  - destruct re as [e|]; simpl.
    + do 3 eexists. rewrite <- !app_assoc. split; [reflexivity|].
      exact (step_unreadable propagated _ p w _ e Hf eq_refl).
    + destruct (decide (Repositories.fix_content c <> c)) as [Hne|Heq]; simpl.
      * rewrite Hf. destruct we as [e|]; simpl.
        -- do 3 eexists. rewrite <- !app_assoc. split; [reflexivity|].
           exact (step_write_fails propagated [total Repositories.fix_content] p w _
                    (Repositories.fix_content c) e Hf eq_refl eq_refl Hne eq_refl).
        -- do 3 eexists. rewrite <- !app_assoc. split; [reflexivity|].
           exact (step_written propagated [total Repositories.fix_content] p w _
                    (Repositories.fix_content c) Hf eq_refl eq_refl Hne eq_refl).
      * apply dec_stable in Heq.
        do 3 eexists. rewrite <- !app_assoc. split; [reflexivity|].
        refine (step_unchanged propagated _ p w _ Hf eq_refl _).
        simpl. unfold total. now rewrite Heq.
  - do 3 eexists. rewrite <- !app_assoc. split; [reflexivity|].
    exact (step_missing propagated _ p w Hf).
Qed.

Lemma count_events_app (which : event -> bool) (a b : list event) :
  count_events which (a ++ b) = count_events which a + count_events which b.
Proof. unfold count_events. now rewrite List.filter_app, length_app. Qed.

Lemma visited_app (a b : list event) : visited (a ++ b) = visited a ++ visited b.
Proof.
  induction a as [|[[]| |] a IH]; simpl; try assumption; try reflexivity.
  now rewrite IH.
Qed.

Lemma summary_of_app (a b : list event) :
  summary_of a = None -> summary_of (a ++ b) = summary_of b.
Proof.
  induction a as [|[[]| |] a IH]; simpl; intros H; try (now apply IH); try reflexivity.
  discriminate.
Qed.

Lemma handler_cases (h : handler) (e : exn) :
  h = caught \/ h = propagated ->
  (fst (h e) = Ok false /\ snd (h e) = [Print (Error e)]) \/
  (fst (h e) = Raise e /\ snd (h e) = []).
Proof. intros [->| ->]; [left|right]; split; reflexivity. Qed.

(** Handling [p] touches no other file. *)
Lemma file_step_frame h fixes p w r w1 evs (q : path) :
  file_step h fixes p w r w1 evs -> q <> p -> files w1 !! q = files w !! q.
Proof.
  intros Hstep Hq. inversion Hstep; subst; try reflexivity.
  unfold set_text; simpl. now rewrite lookup_insert_ne.
Qed.

(** Handling [p] opens at most [p] for writing, at most once, and only
    after the read and every fix function succeeded with a new content. *)
Lemma file_step_writes h fixes p w r w1 evs (q : path) :
  h = caught \/ h = propagated ->
  file_step h fixes p w r w1 evs ->
  count_writes q evs <= 1 /\
  (0 < count_writes q evs ->
   q = p /\
   exists f c, files w !! p = Some f /\ f_read_error f = None /\
               apply_fixes fixes (f_text f) = Ok c /\ c <> f_text f).
Proof.
  intros Hh Hstep.
  inversion Hstep; subst;
    try (destruct (handler_cases h FileNotFoundError Hh) as [[_ ->]|[_ ->]]);
    try (destruct (handler_cases h e Hh) as [[_ ->]|[_ ->]]);
    unfold count_writes, count_events; simpl;
    try (split; [lia|intros; lia]);
    (case_bool_decide; simpl; (split; [lia|]); intros Hpos; [|lia]; subst q;
     split; [reflexivity|]; eauto 10).
Qed.

(** After handling [p] the file holds its old content or the complete
    result of the fix functions. *)
Lemma file_step_file h fixes p w r w1 evs (f : file) :
  file_step h fixes p w r w1 evs ->
  files w !! p = Some f ->
  files w1 !! p = Some f \/
  exists c, apply_fixes fixes (f_text f) = Ok c /\ c <> f_text f /\
            files w1 !! p = Some (File c (f_read_error f) (f_write_error f)).
Proof.
  intros Hstep Hf. inversion Hstep; subst; try (now left).
  right. exists c. rewrite Hf in H. inversion H; subst f0.
  repeat split; try assumption.
  unfold set_text; simpl. rewrite lookup_insert_eq. now rewrite Hf.
Qed.

Lemma file_step_missing h fixes p w r w1 evs :
  file_step h fixes p w r w1 evs -> files w !! p = None -> files w1 !! p = None.
Proof.
  intros Hstep Hf. inversion Hstep; subst; try assumption; congruence.
Qed.

(** What handling one file reports. *)
Lemma file_step_report h fixes p w r w1 evs :
  h = caught \/ h = propagated ->
  file_step h fixes p w r w1 evs ->
  visited evs = [name p] /\ summary_of evs = None /\
  match r with
  | Ok true => count_fixed evs = 1 /\ count_unchanged evs = 0 /\ count_errors evs = 0
  | Ok false => count_fixed evs = 0 /\ count_unchanged evs + count_errors evs = 1
  | Raise _ => count_fixed evs = 0 /\ count_unchanged evs = 0 /\ count_errors evs = 0
  end.
Proof.
  intros Hh Hstep.
  inversion Hstep; subst;
    try (destruct (handler_cases h FileNotFoundError Hh) as [[-> ->]|[-> ->]]);
    try (destruct (handler_cases h e Hh) as [[-> ->]|[-> ->]]);
    repeat split; reflexivity.
Qed.

Lemma file_step_caught_ok fixes p w r w1 evs :
  file_step caught fixes p w r w1 evs -> exists b, r = Ok b.
Proof. intros Hstep. inversion Hstep; subst; simpl; eauto. Qed.

(** ** The loop over the files *)

Section Loop.

Variable h : handler.
Variable fixes : list fixfn.
Variable body : path -> M bool.

Hypothesis handler_shape : h = caught \/ h = propagated.
Hypothesis body_step :
  forall p w tr, exists r w1 evs,
    body p (State w tr) = (r, State w1 (tr ++ evs)) /\
    file_step h fixes p w r w1 evs.

(** The loop adds events to the trace; files outside the list are not
    touched; it prints no summary; when it ends normally it has started
    on every file in order and counted the files it wrote. *)
Lemma count_loop_run (ps : list path) :
  forall n w tr, exists r w' evs,
    count_loop body ps n (State w tr) = (r, State w' (tr ++ evs)) /\
    (forall q, ~ In q ps -> files w' !! q = files w !! q /\ count_writes q evs = 0) /\
    summary_of evs = None /\
    (h = caught -> exists k, r = Ok k) /\
    (forall k, r = Ok k ->
       k = n + count_fixed evs /\
       count_fixed evs + count_unchanged evs + count_errors evs = length ps /\
       visited evs = map name ps).
Proof.
  induction ps as [|p ps IH]; intros n w tr.
  - exists (Ok n), w, []. rewrite app_nil_r.
    split; [reflexivity|]. split; [intros q _; split; reflexivity|].
    split; [reflexivity|]. split; [intros _; eauto|].
    intros k Hk. inversion Hk; subst.
    unfold count_fixed, count_unchanged, count_errors, count_events; simpl.
    repeat split; lia.
  - simpl. unfold bind.
    destruct (body_step p w tr) as (r1 & w1 & evs1 & Hbody & Hstep).
    rewrite Hbody.
    pose proof (file_step_report _ _ _ _ _ _ _ handler_shape Hstep) as (Hv1 & Hs1 & Hc1).
    destruct r1 as [b|e].
    + destruct (IH (if b then n + 1 else n) w1 (tr ++ evs1))
        as (r & w' & evs & Hloop & Hframe & Hsum & Hok & Hcount).
      exists r, w', (evs1 ++ evs). rewrite app_assoc. split; [exact Hloop|].
      split; [|split; [|split]].
      * intros q Hq. apply Decidable.not_or in Hq. destruct Hq as [Hqp Hq].
        destruct (Hframe q Hq) as [Hfile Hwr]. split.
        -- rewrite Hfile. apply (file_step_frame _ _ _ _ _ _ _ q Hstep). congruence.
        -- destruct (file_step_writes _ _ _ _ _ _ _ q handler_shape Hstep) as [Hle Hpos].
           unfold count_writes in *. rewrite count_events_app, Hwr.
           destruct (count_events (is_open_write q) evs1) as [|m]; [reflexivity|].
           destruct Hpos as [Heq _]; [lia|]. congruence.
      * now rewrite summary_of_app.
      * exact Hok.
      * intros k Hk. destruct (Hcount k Hk) as (Hk1 & Hk2 & Hk3).
        unfold count_fixed, count_unchanged, count_errors in *.
        rewrite !count_events_app, visited_app, Hv1, Hk3. simpl.
        destruct b; [destruct Hc1 as (Hf1 & Hu1 & He1)|destruct Hc1 as (Hf1 & Hu1)];
          repeat split; lia.
    + exists (Raise e), w1, evs1. split; [reflexivity|].
      split; [|split; [|split]].
      * intros q Hq. apply Decidable.not_or in Hq. destruct Hq as [Hqp Hq].
        split.
        -- apply (file_step_frame _ _ _ _ _ _ _ q Hstep). congruence.
        -- destruct (file_step_writes _ _ _ _ _ _ _ q handler_shape Hstep) as [Hle Hpos].
           destruct (count_writes q evs1) as [|m]; [reflexivity|].
           destruct Hpos as [Heq _]; [lia|]. congruence.
      * exact Hs1.
      * intros Hc. subst h. apply file_step_caught_ok in Hstep.
        destruct Hstep as [b Hb]. discriminate.
      * intros k Hk. discriminate.
Qed.

(** Over a list without repetitions every file is opened for writing at
    most once, only after its fix functions all succeeded, and ends with
    its old content or the complete new one. *)
Lemma count_loop_files (ps : list path) :
  NoDup ps ->
  forall n w tr, exists r w' evs,
    count_loop body ps n (State w tr) = (r, State w' (tr ++ evs)) /\
    forall p,
      count_writes p evs <= 1 /\
      (0 < count_writes p evs ->
       exists f c, files w !! p = Some f /\ f_read_error f = None /\
                   apply_fixes fixes (f_text f) = Ok c /\ c <> f_text f) /\
      (forall f, files w !! p = Some f ->
         files w' !! p = Some f \/
         exists c, apply_fixes fixes (f_text f) = Ok c /\ c <> f_text f /\
                   files w' !! p = Some (File c (f_read_error f) (f_write_error f))).
Proof.
  induction 1 as [|p0 ps Hnotin Hnd IH]; intros n w tr.
  - exists (Ok n), w, []. rewrite app_nil_r. split; [reflexivity|].
    intros p. unfold count_writes, count_events; simpl.
    repeat split; [lia|lia|]. intros f Hf. now left.
  - simpl. unfold bind. rewrite list_elem_of_In in Hnotin.
    destruct (body_step p0 w tr) as (r1 & w1 & evs1 & Hbody & Hstep).
    rewrite Hbody.
    assert (Hhead : forall p,
      count_writes p evs1 <= 1 /\
      (0 < count_writes p evs1 ->
       p = p0 /\
       exists f c, files w !! p0 = Some f /\ f_read_error f = None /\
                   apply_fixes fixes (f_text f) = Ok c /\ c <> f_text f)).
    { intros p. apply (file_step_writes _ _ _ _ _ _ _ p handler_shape Hstep). }
    destruct r1 as [b|e].
    + destruct (count_loop_run ps (if b then n + 1 else n) w1 (tr ++ evs1))
        as (r & w' & evs & Hloop & Hframe & _).
      destruct (IH (if b then n + 1 else n) w1 (tr ++ evs1))
        as (r' & w'' & evs' & Hloop' & Hrest).
      rewrite Hloop in Hloop'. inversion Hloop' as [[Hr Hw Hevs]].
      apply app_inv_head in Hevs. subst r' w'' evs'. clear Hloop'.
      exists r, w', (evs1 ++ evs). rewrite app_assoc. split; [exact Hloop|].
      intros p. unfold count_writes in *. rewrite count_events_app.
      destruct (Hhead p) as [Hle1 Hpos1].
      destruct (Hrest p) as (Hle2 & Hpos2 & Hfile2).
      destruct (decide (p = p0)) as [->|Hne].
      * destruct (Hframe p0 Hnotin) as [Hsame Hzero].
        rewrite Hzero.
        split; [lia|]. split.
        -- intros Hpos. destruct Hpos1 as [_ Hex]; [lia|]. exact Hex.
        -- intros f Hf. rewrite Hsame.
           apply (file_step_file _ _ _ _ _ _ _ f Hstep Hf).
      * assert (Hz : count_events (is_open_write p) evs1 = 0).
        { destruct (count_events (is_open_write p) evs1) as [|m]; [reflexivity|].
          destruct Hpos1 as [Heq _]; [lia|]. contradiction. }
        rewrite Hz. simpl.
        pose proof (file_step_frame _ _ _ _ _ _ _ p Hstep Hne) as Hsame.
        rewrite Hsame in Hpos2, Hfile2.
        repeat split; assumption.
    + exists (Raise e), w1, evs1. split; [reflexivity|].
      intros p. destruct (Hhead p) as [Hle1 Hpos1].
      split; [exact Hle1|]. split.
      * intros Hpos. destruct (Hpos1 Hpos) as [-> Hex]. exact Hex.
      * intros f Hf. destruct (decide (p = p0)) as [->|Hne].
        -- apply (file_step_file _ _ _ _ _ _ _ f Hstep Hf).
        -- left. rewrite <- Hf. apply (file_step_frame _ _ _ _ _ _ _ p Hstep Hne).
Qed.

End Loop.

(** ** C5: one write per file, after all fix functions *)

(** C5.  In a run of the shared runner over files listed once each, with
    any fix functions: a file is opened for writing at most once; it is
    opened for writing only if it was read and every fix function returned,
    giving a content different from the one read; after the run it holds
    the content it had or the complete result of the fix functions; and if
    a fix function raises on its content, it is not opened for writing and
    keeps its content. *)
Theorem file_written_once_after_all_fixes (fixes : list fixfn) (ps : list path)
    (st : state) (p : path) :
  NoDup ps ->
  count_writes p (trace (after_loop (process_file_with fixes) ps st))
  <= count_writes p (trace st) + 1 /\
  (count_writes p (trace st)
   < count_writes p (trace (after_loop (process_file_with fixes) ps st)) ->
   exists f c, files (fs st) !! p = Some f /\ f_read_error f = None /\
               apply_fixes fixes (f_text f) = Ok c /\ c <> f_text f) /\
  (forall f, files (fs st) !! p = Some f ->
     files (fs (after_loop (process_file_with fixes) ps st)) !! p = Some f \/
     exists c, apply_fixes fixes (f_text f) = Ok c /\ c <> f_text f /\
               files (fs (after_loop (process_file_with fixes) ps st)) !! p
               = Some (File c (f_read_error f) (f_write_error f))) /\
  (forall f e, files (fs st) !! p = Some f ->
     apply_fixes fixes (f_text f) = Raise e ->
     files (fs (after_loop (process_file_with fixes) ps st)) !! p = Some f /\
     count_writes p (trace (after_loop (process_file_with fixes) ps st))
     = count_writes p (trace st)).
Proof.
  intros Hnd. destruct st as [w tr]. unfold after_loop.
  destruct (count_loop_files caught fixes (process_file_with fixes)
              (or_introl eq_refl) (process_file_with_step fixes) ps Hnd 0 w tr)
    as (r & w' & evs & Hrun & Hall).
  rewrite Hrun. simpl. destruct (Hall p) as (Hle & Hpos & Hfile).
  unfold count_writes in *. rewrite count_events_app.
  split; [lia|]. split; [intros Hlt; apply Hpos; lia|]. split; [exact Hfile|].
  intros f e Hf Hraise. split.
  - destruct (Hfile f Hf) as [Hsame|(c & Hc & _)]; [exact Hsame|congruence].
  - destruct (count_events (is_open_write p) evs) as [|m]; [lia|].
    destruct Hpos as (f' & c & Hf' & _ & Hc & _); [lia|]. congruence.
Qed.

(** The second fix function fails on the one file of the run: the file
    keeps its content and is never opened for writing. *)
Lemma file_written_once_after_all_fixes_witness :
  files (fs (after_loop (process_file_with failing_fixes) [use_case_a]
               (State fs_one_dirty []))) !! use_case_a
  = Some (plain_file (txt "x.toDate()")) /\
  count_writes use_case_a
    (trace (after_loop (process_file_with failing_fixes) [use_case_a]
              (State fs_one_dirty [])))
  = count_writes use_case_a (trace (State fs_one_dirty [])).
Proof.
  destruct (file_written_once_after_all_fixes failing_fixes [use_case_a]
              (State fs_one_dirty []) use_case_a (NoDup_singleton use_case_a))
    as (_ & _ & _ & H).
  apply (H (plain_file (txt "x.toDate()")) (RuntimeError "replacement failed")).
  - vm_compute. reflexivity.
  - vm_compute. reflexivity.
Defined.

(** ** C6: an unchanged content is not written *)

Lemma file_step_same_content h fixes p w r w1 evs (f : file) :
  file_step h fixes p w r w1 evs ->
  files w !! p = Some f -> f_read_error f = None ->
  apply_fixes fixes (f_text f) = Ok (f_text f) ->
  r = Ok false /\ w1 = w /\
  evs = [Print (Processing (name p)); OpenRead p; Print (NoChanges (name p))].
Proof.
  intros Hstep Hf Hre Hfix.
  inversion Hstep; subst; try congruence.
  now repeat split.
Qed.

(** Each script's per-file function is a [file_step] with the script's
    transformation as its one fix function. *)
Lemma script_process_step (s : script) (p : path) (w : fsys) (tr : list event) :
  exists r w1 evs,
    script_process s p (State w tr) = (r, State w1 (tr ++ evs)) /\
    file_step (match s with FixRepositories => propagated | _ => caught end)
      (match s with
       | FixRepositories => [total Repositories.fix_content]
       | _ => map total (script_fixes s)
       end) p w r w1 evs.
Proof.
  destruct s; simpl.
  - apply fix_repository_file_step.
  - apply process_file_with_step.
  - apply process_file_with_step.
Qed.

(** C6.  For each script and every readable file: when the transformed
    content equals the content read, the per-file function returns [False]
    having printed the no-change message, the file system is the same and
    the file was not opened for writing; this is the case in particular
    when no pattern of the script matches anywhere in the file. *)
Theorem unchanged_file_not_written (s : script) (p : path) (w : fsys)
    (tr : list event) (f : file) :
  files w !! p = Some f ->
  f_read_error f = None ->
  script_fix s (f_text f) = f_text f \/
  no_pattern_matches (script_patterns s) (f_text f) = true ->
  script_process s p (State w tr)
  = (Ok false,
     State w (tr ++ [Print (Processing (name p)); OpenRead p;
                     Print (NoChanges (name p))])).
Proof.
  intros Hf Hre Hsame.
  assert (Hfix : script_fix s (f_text f) = f_text f).
  { destruct Hsame as [H|H]; [exact H|now apply script_fix_nomatch]. }
  destruct (script_process_step s p w tr) as (r & w1 & evs & Hrun & Hstep).
  rewrite Hrun.
  apply (file_step_same_content _ _ _ _ _ _ _ f) in Hstep; try assumption.
  - destruct Hstep as (-> & -> & ->). reflexivity.
  - destruct s.
    + change (Ok (Repositories.fix_content (f_text f)) = Ok (f_text f)).
      f_equal. exact Hfix.
    + now rewrite apply_fixes_total, <- script_fix_fold, Hfix.
    + now rewrite apply_fixes_total, <- script_fix_fold, Hfix.
Qed.

(** A use-case file in which no pattern matches: one read, no write, the
    same file system. *)
Lemma unchanged_file_not_written_witness :
  script_process FixUseCases use_case_a (State fs_one_clean [])
  = (Ok false,
     State fs_one_clean
       ([] ++ [Print (Processing (name use_case_a)); OpenRead use_case_a;
               Print (NoChanges (name use_case_a))])).
Proof.
  apply (unchanged_file_not_written FixUseCases use_case_a fs_one_clean []
           (plain_file (txt "done"))).
  - vm_compute. reflexivity.
  - reflexivity.
  - right. vm_compute. reflexivity.
Defined.

(** ** C8: the fix functions run in their order on every file *)

Lemma script_apply_fixes (s : script) (c : text) :
  apply_fixes (match s with
               | FixRepositories => [total Repositories.fix_content]
               | _ => map total (script_fixes s)
               end) c
  = Ok (script_fix s c).
Proof.
  destruct s; [reflexivity| |]; now rewrite apply_fixes_total, <- script_fix_fold.
Qed.

(** What a script's per-file function does with a file that can be read
    and written. *)
Lemma script_process_readable (s : script) (p : path) (w : fsys) (tr : list event)
    (f : file) :
  files w !! p = Some f -> f_read_error f = None -> f_write_error f = None ->
  script_process s p (State w tr)
  = if decide (script_fix s (f_text f) <> f_text f)
    then (Ok true,
          State (set_text p (script_fix s (f_text f)) w)
            (tr ++ [Print (Processing (name p)); OpenRead p; OpenWrite p;
                    Print (Fixed (name p))]))
    else (Ok false,
          State w (tr ++ [Print (Processing (name p)); OpenRead p;
                          Print (NoChanges (name p))])).
Proof.
  intros Hf Hre Hwe.
  destruct (script_process_step s p w tr) as (r & w1 & evs & Hrun & Hstep).
  rewrite Hrun. pose proof (script_apply_fixes s (f_text f)) as Hfix.
  inversion Hstep; subst;
    repeat match goal with
           | Hb : files w !! p = Some ?b |- _ =>
               lazymatch b with
               | f => fail
               | _ => assert (b = f) by congruence; subst b; clear Hb
               end
           end;
    try congruence.
  - rewrite decide_False; [reflexivity|]. intros Hne. apply Hne. congruence.
  - assert (c = script_fix s (f_text f)) by congruence. subst c.
    rewrite decide_True by assumption. reflexivity.
Qed.



(** ** The whole run *)

Lemma insert_sorted_length (p : path) (l : list path) :
  length (insert_sorted p l) = S (length l).
Proof.
  induction l as [|q l IH]; simpl; [reflexivity|].
  destruct (path_leb p q); simpl; [reflexivity|]. now rewrite IH.
Qed.

Lemma sorted_length (l : list path) : length (sorted l) = length l.
Proof.
  induction l as [|p l IH]; simpl; [reflexivity|].
  unfold sorted in *. now rewrite insert_sorted_length, IH.
Qed.

(** What the loop of a script's [main] does, whatever was printed before. *)
Lemma script_loop_run (s : script) (ps : list path) (n : nat) (w : fsys)
    (tr : list event) :
  exists r w' evs,
    count_loop (script_process s) ps n (State w tr) = (r, State w' (tr ++ evs)) /\
    summary_of evs = None /\
    (s <> FixRepositories -> exists k, r = Ok k) /\
    (forall k, r = Ok k ->
       k = n + count_fixed evs /\
       count_fixed evs + count_unchanged evs + count_errors evs = length ps /\
       visited evs = map name ps).
Proof.
  destruct (count_loop_run
              (match s with FixRepositories => propagated | _ => caught end)
              (match s with
               | FixRepositories => [total Repositories.fix_content]
               | _ => map total (script_fixes s)
               end)
              (script_process s)
              ltac:(destruct s; auto)
              (script_process_step s) ps n w tr)
    as (r & w' & evs & Hrun & _ & Hsum & Hok & Hcount).
  exists r, w', evs.
  split; [exact Hrun|]. split; [exact Hsum|]. split; [|exact Hcount].
  intros Hs. apply Hok. now destruct s.
Qed.

(** The trace of a whole run of fix-usecases.py. *)
Lemma usecases_main_run (w : fsys) :
  UseCases.BASE_DIR ∉ denied w ->
  exists k w' evs,
    UseCases.main (State w [])
    = (Ok tt,
       State w'
         ([Print (Banner "Iniciando correccion de use cases..."); Print Rule;
           Print (Found (length (found_files FixUseCases w))); Print Rule]
          ++ evs
          ++ [Print Rule; Print Completed;
              Print (Summary k (length (found_files FixUseCases w)));
              Print NextStep])) /\
    summary_of evs = None /\
    k = count_fixed evs /\
    count_fixed evs + count_unchanged evs + count_errors evs
    = length (found_files FixUseCases w) /\
    visited evs = map name (visit_order FixUseCases w).
Proof.
  intros Hden. unfold UseCases.main, bind, print, glob, log. cbn [fs trace app].
  rewrite bool_decide_eq_false_2 by exact Hden. cbn [fs trace app].
  destruct (script_loop_run FixUseCases (visit_order FixUseCases w) 0 w
              [Print (Banner "Iniciando correccion de use cases..."); Print Rule;
               Print (Found (length (found_files FixUseCases w))); Print Rule])
    as (r & w' & evs & Hrun & Hsum & Hok & Hcount).
  destruct Hok as [k ->]; [discriminate|].
  destruct (Hcount k eq_refl) as (Hk & Htotal & Hvisit).
  exists k, w', evs.
  change (count_loop UseCases.process_file
            (sorted (glob_files UseCases.BASE_DIR (Deep "" ".use-case.ts") w)))
    with (count_loop (script_process FixUseCases) (visit_order FixUseCases w)).
  change (glob_files UseCases.BASE_DIR (Deep "" ".use-case.ts") w)
    with (found_files FixUseCases w).
  rewrite Hrun. cbn [fs trace].
  rewrite <- !app_assoc. cbn [app].
  unfold visit_order in Htotal. rewrite sorted_length in Htotal.
  repeat split; try assumption.
Qed.

(** The trace of a whole run of fix-usecases-phase2.py. *)
Lemma phase2_main_run (w : fsys) :
  Phase2.BASE_DIR ∉ denied w ->
  exists k w' evs,
    Phase2.main (State w [])
    = (Ok tt,
       State w'
         ([Print (Banner "Fase 2: Correcciones especificas"); Print Rule;
           Print (Found (length (found_files FixUseCasesPhase2 w))); Print Rule]
          ++ evs
          ++ [Print Rule; Print Completed;
              Print (Summary k (length (found_files FixUseCasesPhase2 w)))])) /\
    summary_of evs = None /\
    k = count_fixed evs /\
    count_fixed evs + count_unchanged evs + count_errors evs
    = length (found_files FixUseCasesPhase2 w) /\
    visited evs = map name (visit_order FixUseCasesPhase2 w).
Proof.
  intros Hden. unfold Phase2.main, bind, print, glob, log. cbn [fs trace app].
  rewrite bool_decide_eq_false_2 by exact Hden. cbn [fs trace app].
  destruct (script_loop_run FixUseCasesPhase2 (visit_order FixUseCasesPhase2 w) 0 w
              [Print (Banner "Fase 2: Correcciones especificas"); Print Rule;
               Print (Found (length (found_files FixUseCasesPhase2 w))); Print Rule])
    as (r & w' & evs & Hrun & Hsum & Hok & Hcount).
  destruct Hok as [k ->]; [discriminate|].
  destruct (Hcount k eq_refl) as (Hk & Htotal & Hvisit).
  exists k, w', evs.
  change (count_loop Phase2.process_file
            (sorted (glob_files Phase2.BASE_DIR (Deep "" ".use-case.ts") w)))
    with (count_loop (script_process FixUseCasesPhase2)
            (visit_order FixUseCasesPhase2 w)).
  change (glob_files Phase2.BASE_DIR (Deep "" ".use-case.ts") w)
    with (found_files FixUseCasesPhase2 w).
  rewrite Hrun. cbn [fs trace].
  rewrite <- !app_assoc. cbn [app].
  unfold visit_order in Htotal. rewrite sorted_length in Htotal.
  repeat split; try assumption.
Qed.

(** A script whose root may not be looked at ends with the exception of
    [exists] or of [glob]; the use-case scripts have printed their banner by
    then. *)
Lemma repositories_main_denied (w : fsys) :
  Repositories.repo_dir ∈ denied w ->
  Repositories.main (State w []) = (Raise PermissionError, State w []).
Proof.
  intros Hden. unfold Repositories.main, bind, path_exists. cbn [fs].
  rewrite bool_decide_eq_true_2 by exact Hden. reflexivity.
Qed.

Lemma usecases_main_denied (w : fsys) :
  UseCases.BASE_DIR ∈ denied w ->
  UseCases.main (State w [])
  = (Raise PermissionError,
     State w [Print (Banner "Iniciando correccion de use cases..."); Print Rule]).
Proof.
  intros Hden. unfold UseCases.main, bind, print, glob, log. cbn [fs trace app].
  rewrite bool_decide_eq_true_2 by exact Hden. reflexivity.
Qed.

Lemma phase2_main_denied (w : fsys) :
  Phase2.BASE_DIR ∈ denied w ->
  Phase2.main (State w [])
  = (Raise PermissionError,
     State w [Print (Banner "Fase 2: Correcciones especificas"); Print Rule]).
Proof.
  intros Hden. unfold Phase2.main, bind, print, glob, log. cbn [fs trace app].
  rewrite bool_decide_eq_true_2 by exact Hden. reflexivity.
Qed.

(** Nothing is found under a root that is not a directory. *)
Lemma glob_files_no_dir (d : path) (g : globpat) (w : fsys) :
  d ∉ dirs w -> glob_files d g w = [].
Proof.
  intros Hdir. unfold glob_files. case_bool_decide; [reflexivity|].
  rewrite bool_decide_eq_false_2 by exact Hdir. reflexivity.
Qed.

(** fix-repositories.py stops at once when nothing is at the path of its
    directory. *)
Lemma repositories_main_missing_dir (w : fsys) :
  Repositories.repo_dir ∉ denied w ->
  exists_at Repositories.repo_dir w = false ->
  Repositories.main (State w [])
  = (Ok tt, State w [Print (DirNotFound Repositories.repo_dir)]).
Proof.
  intros Hden Hdir. unfold Repositories.main, bind, path_exists. cbn [fs].
  rewrite bool_decide_eq_false_2 by exact Hden. rewrite Hdir. reflexivity.
Qed.

(** The trace of a run of fix-repositories.py when the directory exists:
    the loop either ends and the summary follows, or an exception of a file
    ends the run there. *)
Lemma repositories_main_run (w : fsys) :
  Repositories.repo_dir ∉ denied w ->
  exists_at Repositories.repo_dir w = true ->
  exists r w' evs,
    Repositories.main (State w [])
    = match r with
      | Ok k =>
          (Ok tt,
           State w' ([Print (Found (length (found_files FixRepositories w)))]
                     ++ evs
                     ++ [Print (Summary k (length (found_files FixRepositories w)))]))
      | Raise e =>
          (Raise e,
           State w' ([Print (Found (length (found_files FixRepositories w)))] ++ evs))
      end /\
    summary_of evs = None /\
    (forall k, r = Ok k ->
       k = count_fixed evs /\
       count_fixed evs + count_unchanged evs + count_errors evs
       = length (found_files FixRepositories w) /\
       visited evs = map name (visit_order FixRepositories w)).
Proof.
  intros Hden Hdir. unfold Repositories.main, bind, path_exists, print, glob, log.
  cbn [fs trace app].
  rewrite bool_decide_eq_false_2 by exact Hden. rewrite Hdir.
  cbn [negb fs trace app]. rewrite bool_decide_eq_false_2 by exact Hden.
  cbn [fs trace app].
  destruct (script_loop_run FixRepositories (visit_order FixRepositories w) 0 w
              [Print (Found (length (found_files FixRepositories w)))])
    as (r & w' & evs & Hrun & Hsum & _ & Hcount).
  exists r, w', evs.
  change (count_loop Repositories.fix_repository_file
            (glob_files Repositories.repo_dir (Here "prisma-" ".repository.ts") w))
    with (count_loop (script_process FixRepositories) (visit_order FixRepositories w)).
  change (glob_files Repositories.repo_dir (Here "prisma-" ".repository.ts") w)
    with (found_files FixRepositories w).
  rewrite Hrun. split; [|split; [exact Hsum|exact Hcount]].
  destruct r as [k|e]; cbn [fs trace]; [|reflexivity].
  rewrite <- !app_assoc. reflexivity.
Qed.

(** ** C9: what the summary says *)

(** C9, counterexample.  A run over one file that needs no change and a run
    over one file that cannot be read print the same summary, though one
    has an unchanged file and no error and the other an error and no
    unchanged file: the summary gives neither count. *)
Lemma summary_same_for_unchanged_and_errored :
  summary_of (run_trace FixUseCases fs_one_clean)
  = summary_of (run_trace FixUseCases fs_one_unreadable) /\
  count_unchanged (run_trace FixUseCases fs_one_clean) = 1 /\
  count_errors (run_trace FixUseCases fs_one_clean) = 0 /\
  count_unchanged (run_trace FixUseCases fs_one_unreadable) = 0 /\
  count_errors (run_trace FixUseCases fs_one_unreadable) = 1.
Proof. vm_compute. repeat split. Qed.

(** C9, amended.  The two use-case scripts always end with a summary, and
    whenever any of the three scripts prints one it gives two numbers: the
    files written and the files found, the latter being the files written,
    left unchanged and failed together.  Unchanged and failed files are not
    counted apart. *)
Theorem summary_counts_changed_and_found (s : script) (w : fsys) :
  (s <> FixRepositories -> root_of s ∉ denied w ->
   summary_of (run_trace s w) <> None) /\
  (forall k n, summary_of (run_trace s w) = Some (k, n) ->
     k = count_fixed (run_trace s w) /\
     n = length (found_files s w) /\
     n = count_fixed (run_trace s w) + count_unchanged (run_trace s w)
         + count_errors (run_trace s w)).
Proof.
  unfold run_trace. destruct s; cbn [script_main].
  - split; [congruence|]. intros k n.
    destruct (decide (Repositories.repo_dir ∈ denied w)) as [Hden|Hden];
      [rewrite (repositories_main_denied w Hden); cbn; discriminate|].
    destruct (exists_at Repositories.repo_dir w) eqn:Hdir.
    + destruct (repositories_main_run w Hden Hdir)
        as (r & w' & evs & Hrun & Hsum & Hcount).
      rewrite Hrun. destruct r as [k'|e]; cbn [snd trace].
      * destruct (Hcount k' eq_refl) as (Hk & Htotal & _).
        assert (Hs : summary_of
                       ([Print (Found (length (found_files FixRepositories w)))]
                        ++ evs
                        ++ [Print (Summary k' (length (found_files FixRepositories w)))])
                     = Some (k', length (found_files FixRepositories w))).
        { cbn [app summary_of]. rewrite summary_of_app by exact Hsum. reflexivity. }
        rewrite Hs. intros Heq. inversion Heq; subst k n.
        unfold count_fixed, count_unchanged, count_errors in *.
        rewrite !count_events_app. unfold count_events in *.
        simpl in Htotal |- *. repeat split; lia.
      * cbn [app summary_of]. rewrite Hsum. discriminate.
    + rewrite (repositories_main_missing_dir w Hden Hdir). cbn. discriminate.
  - destruct (decide (UseCases.BASE_DIR ∈ denied w)) as [Hden|Hden];
      [rewrite (usecases_main_denied w Hden); cbn; split;
       [intros _ H; now destruct H|discriminate]|].
    destruct (usecases_main_run w Hden)
      as (k' & w' & evs & Hrun & Hsum & Hk & Htotal & _).
    rewrite Hrun. cbn [snd trace].
    assert (Hs : summary_of
                   ([Print (Banner "Iniciando correccion de use cases..."); Print Rule;
                     Print (Found (length (found_files FixUseCases w))); Print Rule]
                    ++ evs
                    ++ [Print Rule; Print Completed;
                        Print (Summary k' (length (found_files FixUseCases w)));
                        Print NextStep])
                 = Some (k', length (found_files FixUseCases w))).
    { cbn [app summary_of]. rewrite summary_of_app by exact Hsum. reflexivity. }
    rewrite Hs. split; [discriminate|]. intros k n Heq. inversion Heq; subst k n.
    unfold count_fixed, count_unchanged, count_errors in *.
    rewrite !count_events_app. unfold count_events in *.
    simpl in Htotal |- *. repeat split; lia.
  - destruct (decide (Phase2.BASE_DIR ∈ denied w)) as [Hden|Hden];
      [rewrite (phase2_main_denied w Hden); cbn; split;
       [intros _ H; now destruct H|discriminate]|].
    destruct (phase2_main_run w Hden)
      as (k' & w' & evs & Hrun & Hsum & Hk & Htotal & _).
    rewrite Hrun. cbn [snd trace].
    assert (Hs : summary_of
                   ([Print (Banner "Fase 2: Correcciones especificas"); Print Rule;
                     Print (Found (length (found_files FixUseCasesPhase2 w))); Print Rule]
                    ++ evs
                    ++ [Print Rule; Print Completed;
                        Print (Summary k' (length (found_files FixUseCasesPhase2 w)))])
                 = Some (k', length (found_files FixUseCasesPhase2 w))).
    { cbn [app summary_of]. rewrite summary_of_app by exact Hsum. reflexivity. }
    rewrite Hs. split; [discriminate|]. intros k n Heq. inversion Heq; subst k n.
    unfold count_fixed, count_unchanged, count_errors in *.
    rewrite !count_events_app. unfold count_events in *.
    simpl in Htotal |- *. repeat split; lia.
Qed.

(** One file gets rewritten: the summary says one written of one found. *)
Lemma summary_counts_changed_and_found_witness :
  summary_of (run_trace FixUseCases fs_one_dirty) = Some (1, 1) /\
  (1 = count_fixed (run_trace FixUseCases fs_one_dirty) /\
   1 = length (found_files FixUseCases fs_one_dirty) /\
   1 = count_fixed (run_trace FixUseCases fs_one_dirty)
       + count_unchanged (run_trace FixUseCases fs_one_dirty)
       + count_errors (run_trace FixUseCases fs_one_dirty)).
Proof.
  split.
  - vm_compute. reflexivity.
  - apply (proj2 (summary_counts_changed_and_found FixUseCases fs_one_dirty) 1 1).
    vm_compute. reflexivity.
Defined.

(** ** C2: an exception in fix-repositories.py *)

(** C2, at the failing input.  With two repository files that both need a
    fix, the first of which cannot be read, [main] of fix-repositories.py
    ends with the exception of the first file: the second file is never
    started on and keeps its unfixed content. *)
Theorem repositories_run_aborts_on_unreadable_file :
  fst (Repositories.main (State fs_unreadable_first [])) = Raise PermissionError /\
  visited (run_trace FixRepositories fs_unreadable_first) = ["prisma-a.repository.ts"] /\
  files (fs (snd (Repositories.main (State fs_unreadable_first [])))) !! repo_b
  = Some (plain_file (txt "b.toDate()")) /\
  Repositories.fix_content (txt "b.toDate()") = txt "b.toJSDate()".
Proof. vm_compute. repeat split. Qed.

(** ** C3: a missing root directory in the use-case scripts *)

(** Without its directory fix-usecases.py finds nothing and runs to its
    normal end. *)
Lemma usecases_main_missing_dir (w : fsys) :
  UseCases.BASE_DIR ∉ denied w ->
  UseCases.BASE_DIR ∉ dirs w ->
  UseCases.main (State w [])
  = (Ok tt,
     State w
       [Print (Banner "Iniciando correccion de use cases..."); Print Rule;
        Print (Found 0); Print Rule; Print Rule; Print Completed;
        Print (Summary 0 0); Print NextStep]).
Proof.
  intros Hden Hdir. unfold UseCases.main, bind, print, glob, log.
  cbn [fs trace]. rewrite bool_decide_eq_false_2 by exact Hden.
  rewrite (glob_files_no_dir _ _ w Hdir). reflexivity.
Qed.

(** C3, at the failing input.  Without the use-case directory, [main] of
    fix-usecases.py prints no error: it reports zero files found and a
    completed run with the summary 0/0. *)
Theorem usecases_run_without_base_dir_reports_success :
  UseCases.main (State fs_no_base_dir [])
  = (Ok tt,
     State fs_no_base_dir
       [Print (Banner "Iniciando correccion de use cases..."); Print Rule;
        Print (Found 0); Print Rule; Print Rule; Print Completed;
        Print (Summary 0 0); Print NextStep]).
Proof. apply usecases_main_missing_dir; apply not_elem_of_empty. Qed.

(** ** C7: the order of the files in fix-repositories.py *)

(** C7, at the failing input.  When the operating system lists
    [prisma-b.repository.ts] before [prisma-a.repository.ts],
    fix-repositories.py takes them in that order, which is not the sorted
    one. *)
Theorem repositories_run_follows_listing_order :
  visited (run_trace FixRepositories fs_listed_b_first)
  = ["prisma-b.repository.ts"; "prisma-a.repository.ts"] /\
  map name (sorted (found_files FixRepositories fs_listed_b_first))
  = ["prisma-a.repository.ts"; "prisma-b.repository.ts"].
Proof. vm_compute. split; reflexivity. Qed.

(** * Further properties of the runs *)

(** ** The shape of a run *)

(** A script whose root may not be looked at ends there with the
    exception. *)
Lemma script_main_denied (s : script) (w : fsys) :
  root_of s ∈ denied w ->
  script_main s (State w []) = (Raise PermissionError, State w (main_banner s)).
Proof.
  intros Hden. destruct s; cbn [script_main root_of main_banner] in *.
  - apply (repositories_main_denied w Hden).
  - apply (usecases_main_denied w Hden).
  - apply (phase2_main_denied w Hden).
Qed.

Lemma found_files_denied (s : script) (w : fsys) :
  root_of s ∈ denied w -> found_files s w = [].
Proof.
  intros Hden. destruct s; cbn [found_files root_of] in *; unfold glob_files;
    rewrite bool_decide_eq_true_2 by exact Hden; reflexivity.
Qed.

Lemma main_banner_plain (s : script) :
  visited (main_banner s) = [] /\
  summary_of (main_banner s) = None /\
  count_events is_file_op (main_banner s) = 0 /\
  forall q, count_events (is_open q) (main_banner s) = 0.
Proof. destruct s; repeat split. Qed.

(** When the root may be looked at, every [main] is its loop between two
    fixed series of messages. *)
Lemma script_main_shape (s : script) (w : fsys) :
  root_of s ∉ denied w ->
  script_main s (State w [])
  = match count_loop (script_process s) (visit_order s w) 0
            (State w (main_prefix s w)) with
    | (Ok k, st') => (Ok tt, State (fs st') (trace st' ++ main_suffix s w k))
    | (Raise e, st') => (Raise e, st')
    end.
Proof.
  intros Hden.
  destruct s; cbn [script_main script_process visit_order main_prefix main_suffix
                   found_files root_of] in *.
  - unfold Repositories.main, bind, path_exists. cbn [fs].
    rewrite bool_decide_eq_false_2 by exact Hden.
    destruct (exists_at Repositories.repo_dir w) eqn:Hdir.
    + cbn [negb].
      unfold glob, print, log. cbn [fs trace app].
      rewrite bool_decide_eq_false_2 by exact Hden. cbn [fs trace app].
      destruct (count_loop Repositories.fix_repository_file _ 0 _) as [[k|ex] [w' tr']];
        reflexivity.
    + cbn [negb].
      unfold print, log. cbn [fs trace app].
      rewrite glob_files_no_dir.
      * cbn [count_loop]. unfold ret. cbn [fs trace]. now rewrite app_nil_r.
      * intros Hin. unfold exists_at in Hdir.
        rewrite (bool_decide_eq_true_2 _ Hin) in Hdir. discriminate.
  - unfold UseCases.main, bind, print, glob, log. cbn [fs trace app].
    rewrite bool_decide_eq_false_2 by exact Hden. cbn [fs trace app].
    destruct (count_loop UseCases.process_file _ 0 _) as [[k|e] [w' tr']];
      [|reflexivity].
    cbn [fs trace]. now rewrite <- !app_assoc.
  - unfold Phase2.main, bind, print, glob, log. cbn [fs trace app].
    rewrite bool_decide_eq_false_2 by exact Hden. cbn [fs trace app].
    destruct (count_loop Phase2.process_file _ 0 _) as [[k|e] [w' tr']];
      [|reflexivity].
    cbn [fs trace]. now rewrite <- !app_assoc.
Qed.

Lemma main_prefix_plain (s : script) (w : fsys) :
  visited (main_prefix s w) = [] /\
  count_events is_file_op (main_prefix s w) = 0 /\
  forall q, count_events (is_open q) (main_prefix s w) = 0.
Proof.
  destruct s; cbn [main_prefix]; try destruct (exists_at _ _); repeat split.
Qed.

Lemma main_suffix_plain (s : script) (w : fsys) (k : nat) :
  visited (main_suffix s w k) = [] /\
  count_events is_file_op (main_suffix s w k) = 0 /\
  forall q, count_events (is_open q) (main_suffix s w k) = 0.
Proof.
  destruct s; cbn [main_suffix]; try destruct (exists_at _ _); repeat split.
Qed.

(** ** More about one file and about the loop *)

(** Handling [p] opens no other file. *)
Lemma file_step_opens h fixes p w r w1 evs (q : path) :
  h = caught \/ h = propagated ->
  file_step h fixes p w r w1 evs -> q <> p ->
  count_events (is_open q) evs = 0.
Proof.
  intros Hh Hstep Hq.
  inversion Hstep; subst;
    try (destruct (handler_cases h FileNotFoundError Hh) as [[_ ->]|[_ ->]]);
    try (destruct (handler_cases h e Hh) as [[_ ->]|[_ ->]]);
    unfold count_events; simpl;
    rewrite ?(bool_decide_eq_false_2 (q = p)) by exact Hq; reflexivity.
Qed.

(** With the exception caught, a file that can be read and written holds
    the result of its fix functions afterwards. *)
Lemma file_step_result fixes p w r w1 evs (f : file) (c : text) :
  file_step caught fixes p w r w1 evs ->
  files w !! p = Some f -> f_read_error f = None -> f_write_error f = None ->
  apply_fixes fixes (f_text f) = Ok c ->
  files w1 !! p = Some (File c None None).
Proof.
  intros Hstep Hf Hre Hwe Hfix.
  inversion Hstep; subst; try congruence.
  - assert (f0 = f) by congruence. subst f0.
    assert (c = f_text f) by congruence. subst c.
    rewrite Hf. destruct f; simpl in *. now subst.
  - assert (f0 = f) by congruence. subst f0.
    assert (c0 = c) by congruence. subst c0.
    unfold set_text; simpl. rewrite lookup_insert_eq, Hf. now rewrite Hre, Hwe.
Qed.

Section LoopMore.

Variable h : handler.
Variable fixes : list fixfn.
Variable body : path -> M bool.

Hypothesis handler_shape : h = caught \/ h = propagated.
Hypothesis body_step :
  forall p w tr, exists r w1 evs,
    body p (State w tr) = (r, State w1 (tr ++ evs)) /\
    file_step h fixes p w r w1 evs.

(** However the loop ends, it has only added events, and a file outside
    its list was neither opened nor changed. *)
Lemma count_loop_outside (ps : list path) :
  forall n w tr r w' tr',
    count_loop body ps n (State w tr) = (r, State w' tr') ->
    exists evs,
      tr' = tr ++ evs /\
      forall q, ~ In q ps ->
        files w' !! q = files w !! q /\ count_events (is_open q) evs = 0.
Proof.
  induction ps as [|p ps IH]; intros n w tr r w' tr' Hrun.
  - inversion Hrun; subst. exists []. rewrite app_nil_r. now split.
  - simpl in Hrun. unfold bind in Hrun.
    destruct (body_step p w tr) as (r1 & w1 & evs1 & Hbody & Hstep).
    rewrite Hbody in Hrun.
    assert (Hhead : forall q, ~ In q (p :: ps) ->
              files w1 !! q = files w !! q /\ count_events (is_open q) evs1 = 0).
    { intros q Hq. apply Decidable.not_or in Hq. destruct Hq as [Hqp _]. split.
      - apply (file_step_frame _ _ _ _ _ _ _ q Hstep). congruence.
      - apply (file_step_opens _ _ _ _ _ _ _ q handler_shape Hstep). congruence. }
    destruct r1 as [b|e].
    + apply IH in Hrun. destruct Hrun as (evs & -> & Hrest).
      exists (evs1 ++ evs). rewrite app_assoc. split; [reflexivity|].
      intros q Hq. destruct (Hhead q Hq) as [Hf1 Ho1].
      apply Decidable.not_or in Hq. destruct Hq as [_ Hq].
      destruct (Hrest q Hq) as [Hf2 Ho2].
      split; [congruence|]. rewrite count_events_app. lia.
    + inversion Hrun; subst. exists evs1. split; [reflexivity|]. exact Hhead.
Qed.

End LoopMore.

Section LoopCaught.

Variable fixes : list fixfn.
Variable body : path -> M bool.

Hypothesis body_step :
  forall p w tr, exists r w1 evs,
    body p (State w tr) = (r, State w1 (tr ++ evs)) /\
    file_step caught fixes p w r w1 evs.

(** With exceptions caught, every listed file that can be read and written
    holds the result of its fix functions after the loop. *)
Lemma count_loop_written (ps : list path) :
  NoDup ps ->
  forall n w tr r w' tr' p f c,
    count_loop body ps n (State w tr) = (r, State w' tr') ->
    In p ps ->
    files w !! p = Some f -> f_read_error f = None -> f_write_error f = None ->
    apply_fixes fixes (f_text f) = Ok c ->
    files w' !! p = Some (File c None None).
Proof.
  induction 1 as [|p0 ps Hnotin Hnd IH]; intros n w tr r w' tr' p f c Hrun Hin Hf Hre Hwe Hfix.
  - destruct Hin.
  - rewrite list_elem_of_In in Hnotin.
    simpl in Hrun. unfold bind in Hrun.
    destruct (body_step p0 w tr) as (r1 & w1 & evs1 & Hbody & Hstep).
    rewrite Hbody in Hrun.
    destruct (file_step_caught_ok _ _ _ _ _ _ Hstep) as [b ->].
    destruct Hin as [->|Hin].
    + pose proof (file_step_result _ _ _ _ _ _ f c Hstep Hf Hre Hwe Hfix) as Hres.
      destruct (count_loop_outside caught fixes body (or_introl eq_refl) body_step
                  ps _ _ _ _ _ _ Hrun) as (evs & _ & Hout).
      destruct (Hout p Hnotin) as [Hsame _]. congruence.
    + assert (Hne : p <> p0) by congruence.
      apply (IH _ _ _ _ _ _ p f c Hrun Hin); try assumption.
      rewrite <- Hf. apply (file_step_frame _ _ _ _ _ _ _ p Hstep Hne).
Qed.

End LoopCaught.

(** ** Sorting keeps the files *)

Lemma insert_sorted_perm (p : path) (l : list path) :
  Permutation (insert_sorted p l) (p :: l).
Proof.
  induction l as [|q l IH]; simpl; [reflexivity|].
  destruct (path_leb p q); [reflexivity|].
  rewrite IH. apply perm_swap.
Qed.

Lemma sorted_perm (l : list path) : Permutation (sorted l) l.
Proof.
  induction l as [|p l IH]; simpl; [reflexivity|].
  unfold sorted in *. simpl. rewrite insert_sorted_perm. now constructor.
Qed.

Lemma visit_order_In (s : script) (w : fsys) (p : path) :
  In p (visit_order s w) <-> In p (found_files s w).
Proof.
  destruct s; cbn [visit_order]; [reflexivity| |];
    split; apply Permutation_in; [apply sorted_perm| symmetry; apply sorted_perm
                                 |apply sorted_perm| symmetry; apply sorted_perm].
Qed.

Lemma visit_order_NoDup (s : script) (w : fsys) :
  NoDup (listing w) -> NoDup (visit_order s w).
Proof.
  intros Hnd.
  assert (Hfound : NoDup (found_files s w)).
  { destruct s; cbn [found_files]; unfold glob_files; repeat case_bool_decide;
      try apply NoDup_nil_2;
      apply NoDup_ListNoDup, List.NoDup_filter, NoDup_ListNoDup, Hnd. }
  assert (Hsorted : forall l : list path, NoDup l -> NoDup (sorted l)).
  { intros l Hl. apply NoDup_ListNoDup.
    apply (Permutation_NoDup (l := l)); [symmetry; apply sorted_perm|].
    now apply NoDup_ListNoDup. }
  destruct s; cbn [visit_order]; [exact Hfound| |]; now apply Hsorted.
Qed.

(** ** Runs of the use-case scripts *)

(** Handling a file opens it for reading, once, however it goes on. *)
Lemma opened_for_reading_app (tr1 tr2 : list event) :
  opened_for_reading (tr1 ++ tr2) = opened_for_reading tr1 ++ opened_for_reading tr2.
Proof.
  induction tr1 as [|e tr1 IH]; [reflexivity|].
  destruct e as [m|q|q]; cbn [app opened_for_reading]; now rewrite IH.
Qed.

Lemma file_step_reads h fixes p w r w1 evs :
  h = caught \/ h = propagated ->
  file_step h fixes p w r w1 evs -> opened_for_reading evs = [p].
Proof.
  intros Hh Hstep.
  inversion Hstep; subst;
    try (destruct (handler_cases h FileNotFoundError Hh) as [[_ ->]|[_ ->]]);
    try (destruct (handler_cases h e Hh) as [[_ ->]|[_ ->]]);
    reflexivity.
Qed.

Section LoopReads.

Variable fixes : list fixfn.
Variable body : path -> M bool.

Hypothesis body_step :
  forall p w tr, exists r w1 evs,
    body p (State w tr) = (r, State w1 (tr ++ evs)) /\
    file_step caught fixes p w r w1 evs.

(** With exceptions caught, the loop opens every file of its list for
    reading, once, in the order of the list. *)
Lemma count_loop_reads (ps : list path) :
  forall n w tr r w' tr',
    count_loop body ps n (State w tr) = (r, State w' tr') ->
    exists evs, tr' = tr ++ evs /\ opened_for_reading evs = ps.
Proof.
  induction ps as [|p ps IH]; intros n w tr r w' tr' Hrun.
  - inversion Hrun; subst. exists []. now rewrite app_nil_r.
  - simpl in Hrun. unfold bind in Hrun.
    destruct (body_step p w tr) as (r1 & w1 & evs1 & Hbody & Hstep).
    rewrite Hbody in Hrun.
    destruct (file_step_caught_ok _ _ _ _ _ _ Hstep) as [b ->].
    apply IH in Hrun. destruct Hrun as (evs & -> & Hrest).
    exists (evs1 ++ evs). rewrite app_assoc. split; [reflexivity|].
    rewrite opened_for_reading_app, Hrest.
    now rewrite (file_step_reads _ _ _ _ _ _ _ (or_introl eq_refl) Hstep).
Qed.

End LoopReads.

Lemma main_prefix_reads (s : script) (w : fsys) :
  opened_for_reading (main_prefix s w) = [].
Proof. destruct s; cbn [main_prefix]; try destruct (exists_at _ _); reflexivity. Qed.

Lemma main_suffix_reads (s : script) (w : fsys) (k : nat) :
  opened_for_reading (main_suffix s w k) = [].
Proof. destruct s; cbn [main_suffix]; try destruct (exists_at _ _); reflexivity. Qed.

(** ** A root that is no directory *)

Lemma missing_root_finds_nothing (s : script) (w : fsys) :
  root_of s ∉ dirs w -> visit_order s w = [].
Proof.
  intros Hdir. destruct s; cbn [visit_order found_files root_of] in *;
    rewrite (glob_files_no_dir _ _ w Hdir); reflexivity.
Qed.

(** X2.  When the root of a script is no directory, or may not be looked
    at, the run leaves the file system as it was, opens no file and starts
    on none.  If the root may not be looked at, the run ends with
    [PermissionError] and prints no summary.  Otherwise the use-case
    scripts print the summary 0/0, and so does fix-repositories.py when a
    file is at the path of its directory; only when nothing is there it
    prints the directory-not-found error and nothing else. *)
Theorem unusable_root_opens_no_file (s : script) (w : fsys) :
  root_of s ∉ dirs w \/ root_of s ∈ denied w ->
  fs (snd (script_main s (State w []))) = w /\
  count_events is_file_op (run_trace s w) = 0 /\
  visited (run_trace s w) = [] /\
  if bool_decide (root_of s ∈ denied w)
  then fst (script_main s (State w [])) = Raise PermissionError /\
       summary_of (run_trace s w) = None
  else match s with
       | FixRepositories =>
           if exists_at Repositories.repo_dir w
           then summary_of (run_trace s w) = Some (0, 0)
           else run_trace s w = [Print (DirNotFound Repositories.repo_dir)]
       | _ => summary_of (run_trace s w) = Some (0, 0)
       end.
Proof.
  intros Hroot. unfold run_trace.
  destruct (bool_decide_reflect (root_of s ∈ denied w)) as [Hden|Hden].
  { rewrite (script_main_denied s w Hden). cbn [fst snd fs trace].
    destruct (main_banner_plain s) as (Hv & Hs & Hf & _). repeat split; assumption. }
  destruct Hroot as [Hdir|Hden']; [|contradiction].
  rewrite (script_main_shape s w Hden).
  rewrite (missing_root_finds_nothing s w Hdir). cbn [count_loop].
  unfold ret. cbn [fst snd fs trace].
  destruct (main_prefix_plain s w) as (Hp1 & Hp2 & _).
  destruct (main_suffix_plain s w 0) as (Hq1 & Hq2 & _).
  split; [reflexivity|].
  split; [rewrite count_events_app; lia|].
  split; [rewrite visited_app, Hp1, Hq1; reflexivity|].
  destruct s; cbn [main_prefix main_suffix root_of found_files] in *;
    rewrite (glob_files_no_dir _ _ w Hdir); try reflexivity.
  destruct (exists_at Repositories.repo_dir w); reflexivity.
Qed.

(** A file at the path of the repositories directory: fix-repositories.py
    takes the path to exist, finds nothing and reports 0/0. *)
Lemma unusable_root_opens_no_file_witness :
  fs (snd (script_main FixRepositories (State fs_root_is_file []))) = fs_root_is_file /\
  count_events is_file_op (run_trace FixRepositories fs_root_is_file) = 0 /\
  visited (run_trace FixRepositories fs_root_is_file) = [] /\
  if bool_decide (root_of FixRepositories ∈ denied fs_root_is_file)
  then fst (script_main FixRepositories (State fs_root_is_file []))
       = Raise PermissionError /\
       summary_of (run_trace FixRepositories fs_root_is_file) = None
  else if exists_at Repositories.repo_dir fs_root_is_file
       then summary_of (run_trace FixRepositories fs_root_is_file) = Some (0, 0)
       else run_trace FixRepositories fs_root_is_file
            = [Print (DirNotFound Repositories.repo_dir)].
Proof.
  apply (unusable_root_opens_no_file FixRepositories fs_root_is_file).
  left. apply not_elem_of_empty.
Defined.

(** ** Files the glob did not find *)

(** X3.  A file that is not among those the script's glob found is never
    opened during the run, for reading or for writing, and has the content,
    if any, that it had before, however the run ends. *)
Theorem unfound_file_untouched (s : script) (w : fsys) (q : path) :
  ~ In q (found_files s w) ->
  files (fs (snd (script_main s (State w [])))) !! q = files w !! q /\
  count_events (is_open q) (run_trace s w) = 0.
Proof.
  intros Hq. unfold run_trace.
  destruct (decide (root_of s ∈ denied w)) as [Hden|Hden].
  { rewrite (script_main_denied s w Hden). cbn [snd fs trace].
    split; [reflexivity|]. apply main_banner_plain. }
  rewrite (script_main_shape s w Hden).
  destruct (count_loop (script_process s) (visit_order s w) 0
              (State w (main_prefix s w))) as [r [w' tr']] eqn:Hrun.
  destruct (count_loop_outside
              (match s with FixRepositories => propagated | _ => caught end)
              (match s with
               | FixRepositories => [total Repositories.fix_content]
               | _ => map total (script_fixes s)
               end)
              (script_process s) ltac:(destruct s; auto) (script_process_step s)
              _ _ _ _ _ _ _ Hrun) as (evs & -> & Hout).
  destruct (Hout q) as [Hfile Hopen].
  { now rewrite visit_order_In. }
  destruct (main_prefix_plain s w) as (_ & _ & Hp).
  destruct r as [k|e]; cbn [snd fs trace].
  - destruct (main_suffix_plain s w k) as (_ & _ & Hs).
    split; [exact Hfile|]. rewrite !count_events_app, Hp, Hs, Hopen. reflexivity.
  - split; [exact Hfile|]. rewrite count_events_app, Hp, Hopen. reflexivity.
Qed.

(** [helper.ts] lies beside the use cases and contains [.getValue()]; the
    run leaves it alone. *)
Lemma unfound_file_untouched_witness :
  files (fs (snd (script_main FixUseCases (State fs_three_use_cases [])))) !! other_file
  = files fs_three_use_cases !! other_file /\
  count_events (is_open other_file) (run_trace FixUseCases fs_three_use_cases) = 0.
Proof.
  apply (unfound_file_untouched FixUseCases fs_three_use_cases other_file).
  vm_compute. intros H.
  repeat (destruct H as [H|H]; [discriminate H|]). exact H.
Defined.

(** ** What the files hold after a run *)

(** X4.  After a run of fix-usecases.py or fix-usecases-phase2.py over a
    directory listing without repetitions, every file the glob found that
    can be read and written holds exactly what the script's fix functions
    make of its previous content (which may be that content itself). *)
Theorem found_file_holds_fixed_content (s : script) (w : fsys) (p : path) (f : file) :
  s <> FixRepositories ->
  NoDup (listing w) ->
  In p (found_files s w) ->
  files w !! p = Some f ->
  f_read_error f = None ->
  f_write_error f = None ->
  files (fs (snd (script_main s (State w [])))) !! p
  = Some (File (script_fix s (f_text f)) None None).
Proof.
  intros Hs Hnd Hin Hf Hre Hwe.
  destruct (decide (root_of s ∈ denied w)) as [Hden|Hden].
  { rewrite (found_files_denied s w Hden) in Hin. destruct Hin. }
  rewrite (script_main_shape s w Hden).
  destruct (count_loop (script_process s) (visit_order s w) 0
              (State w (main_prefix s w))) as [r [w' tr']] eqn:Hrun.
  assert (Hres : files w' !! p = Some (File (script_fix s (f_text f)) None None)).
  { destruct s; [contradiction| |].
    - apply (count_loop_written (map total (script_fixes FixUseCases))
               (script_process FixUseCases) (script_process_step FixUseCases)
               _ (visit_order_NoDup FixUseCases w Hnd) _ _ _ _ _ _ p f _ Hrun);
        try assumption.
      + now apply visit_order_In.
      + now rewrite apply_fixes_total, <- script_fix_fold.
    - apply (count_loop_written (map total (script_fixes FixUseCasesPhase2))
               (script_process FixUseCasesPhase2) (script_process_step FixUseCasesPhase2)
               _ (visit_order_NoDup FixUseCasesPhase2 w Hnd) _ _ _ _ _ _ p f _ Hrun);
        try assumption.
      + now apply visit_order_In.
      + now rewrite apply_fixes_total, <- script_fix_fold. }
  destruct r as [k|e]; exact Hres.
Qed.

Lemma found_file_holds_fixed_content_witness :
  files (fs (snd (script_main FixUseCases (State fs_three_use_cases [])))) !! use_case_c
  = Some (File (script_fix FixUseCases (f_text (plain_file (txt "y.getValue()"))))
            None None).
Proof.
  apply (found_file_holds_fixed_content FixUseCases fs_three_use_cases use_case_c
           (plain_file (txt "y.getValue()"))).
  - discriminate.
  - apply NoDup_ListNoDup. vm_compute.
    repeat (constructor; [intros H; repeat (destruct H as [H|H]; [discriminate H|]); exact H|]).
    constructor.
  - vm_compute. tauto.
  - vm_compute. reflexivity.
  - reflexivity.
  - reflexivity.
Defined.

(** ** The order of paths *)

Lemma text_cmp_refl (a : text) : text_cmp a a = Eq.
Proof. induction a as [|x a IH]; simpl; [reflexivity|]. now rewrite N.compare_refl. Qed.

Lemma code_inj (x y : ascii) : code x = code y -> x = y.
Proof.
  unfold code. intros H. rewrite <- (ascii_N_embedding x), <- (ascii_N_embedding y).
  now rewrite H.
Qed.

Lemma text_cmp_eq (a b : text) : text_cmp a b = Eq -> a = b.
Proof.
  revert b; induction a as [|x a IH]; intros [|y b]; simpl; try discriminate; [reflexivity|].
  destruct (code x ?= code y)%N eqn:E; try discriminate.
  intros H. apply N.compare_eq in E. apply code_inj in E. subst. f_equal. now apply IH.
Qed.

Lemma text_cmp_antisym (a b : text) : text_cmp b a = CompOpp (text_cmp a b).
Proof.
  revert b; induction a as [|x a IH]; intros [|y b]; simpl; try reflexivity.
  rewrite (N.compare_antisym (code x) (code y)).
  destruct (code x ?= code y)%N; simpl; [apply IH|reflexivity|reflexivity].
Qed.

Lemma text_cmp_trans (a b c : text) :
  text_cmp a b = Lt -> text_cmp b c = Lt -> text_cmp a c = Lt.
Proof.
  revert b c; induction a as [|x a IH]; intros [|y b] [|z c]; simpl; try discriminate;
    try reflexivity.
  destruct (code x ?= code y)%N eqn:E1; try discriminate;
    destruct (code y ?= code z)%N eqn:E2; try discriminate; intros H1 H2.
  - apply N.compare_eq in E1, E2. rewrite E1, E2, N.compare_refl. now apply (IH b).
  - apply N.compare_eq in E1. now rewrite E1, E2.
  - apply N.compare_eq in E2. now rewrite <- E2, E1.
  - rewrite N.compare_lt_iff in *. 
    assert (Hlt : (code x < code z)%N) by lia.
    apply N.compare_lt_iff in Hlt. now rewrite Hlt.
Qed.

Lemma txt_inj (x y : string) : txt x = txt y -> x = y.
Proof.
  unfold txt. intros H.
  rewrite <- (string_of_list_ascii_of_string x), <- (string_of_list_ascii_of_string y).
  now rewrite H.
Qed.

Lemma path_cmp_refl (p : path) : path_cmp p p = Eq.
Proof. induction p as [|x p IH]; simpl; [reflexivity|]. now rewrite text_cmp_refl. Qed.

Lemma path_cmp_eq (p q : path) : path_cmp p q = Eq -> p = q.
Proof.
  revert q; induction p as [|x p IH]; intros [|y q]; simpl; try discriminate; [reflexivity|].
  destruct (text_cmp (txt x) (txt y)) eqn:E; try discriminate.
  intros H. apply text_cmp_eq, txt_inj in E. subst. f_equal. now apply IH.
Qed.

Lemma path_cmp_antisym (p q : path) : path_cmp q p = CompOpp (path_cmp p q).
Proof.
  revert q; induction p as [|x p IH]; intros [|y q]; simpl; try reflexivity.
  rewrite (text_cmp_antisym (txt x) (txt y)).
  destruct (text_cmp (txt x) (txt y)); simpl; [apply IH|reflexivity|reflexivity].
Qed.

Lemma path_cmp_trans (p q r : path) :
  path_cmp p q = Lt -> path_cmp q r = Lt -> path_cmp p r = Lt.
Proof.
  revert q r; induction p as [|x p IH]; intros [|y q] [|z r]; simpl; try discriminate;
    try reflexivity.
  destruct (text_cmp (txt x) (txt y)) eqn:E1; try discriminate;
    destruct (text_cmp (txt y) (txt z)) eqn:E2; try discriminate; intros H1 H2.
  - apply text_cmp_eq in E1, E2. rewrite E1, E2, text_cmp_refl. now apply (IH q).
  - apply text_cmp_eq in E1. now rewrite E1, E2.
  - apply text_cmp_eq in E2. now rewrite <- E2, E1.
  - now rewrite (text_cmp_trans _ _ _ E1 E2).
Qed.

Lemma path_le_total (p q : path) : path_le p q \/ path_le q p.
Proof.
  unfold path_le, path_leb. rewrite (path_cmp_antisym p q).
  destruct (path_cmp p q); simpl; auto.
Qed.

Lemma path_le_antisym (p q : path) : path_le p q -> path_le q p -> p = q.
Proof.
  unfold path_le, path_leb. rewrite (path_cmp_antisym p q).
  destruct (path_cmp p q) eqn:E; simpl; try discriminate.
  intros _ _. now apply path_cmp_eq.
Qed.

Lemma path_le_trans (p q r : path) : path_le p q -> path_le q r -> path_le p r.
Proof.
  unfold path_le, path_leb.
  destruct (path_cmp p q) eqn:E1; try discriminate;
    destruct (path_cmp q r) eqn:E2; try discriminate; intros _ _.
  - apply path_cmp_eq in E1, E2. subst. now rewrite path_cmp_refl.
  - apply path_cmp_eq in E1. subst. now rewrite E2.
  - apply path_cmp_eq in E2. subst. now rewrite E1.
  - now rewrite (path_cmp_trans _ _ _ E1 E2).
Qed.

(** [sorted] gives an ascending list. *)
Lemma insert_sorted_sorted (p : path) (l : list path) :
  StronglySorted path_le l -> StronglySorted path_le (insert_sorted p l).
Proof.
  induction 1 as [|q l Hl IH Hq]; simpl.
  - repeat constructor.
  - destruct (path_leb p q) eqn:E.
    + constructor; [now constructor|]. constructor; [exact E|].
      rewrite List.Forall_forall in *. intros x Hx. apply (path_le_trans p q x E).
      now apply Hq.
    + constructor; [exact IH|].
      rewrite List.Forall_forall in *. intros x Hx.
      apply (Permutation_in _ (insert_sorted_perm p l)) in Hx.
      destruct Hx as [<-|Hx]; [|now apply Hq].
      destruct (path_le_total p q) as [H|H]; [unfold path_le in H; congruence|exact H].
Qed.

Lemma sorted_sorted (l : list path) : StronglySorted path_le (sorted l).
Proof.
  induction l as [|p l IH]; simpl; [constructor|].
  now apply insert_sorted_sorted.
Qed.

(** Two listings of the same entries are sorted to the same list. *)
Lemma sorted_of_permutation (l1 l2 : list path) :
  Permutation l1 l2 -> sorted l1 = sorted l2.
Proof.
  intros Hperm.
  assert (Hanti : AntiSymm (=) path_le) by exact path_le_antisym.
  apply (StronglySorted_unique path_le); try apply sorted_sorted.
  now rewrite !sorted_perm.
Qed.

(** ** Every found file is started on *)

(** X1.  In a run of fix-usecases.py or fix-usecases-phase2.py whose root
    may be looked at, the files opened for reading are the files the glob
    found, each once, by their full paths, in ascending order of path,
    whichever of them could not be read or written: a failure on one file
    keeps no later file from being started on. *)
Theorem use_case_run_visits_every_file (s : script) (w : fsys) :
  s <> FixRepositories ->
  root_of s ∉ denied w ->
  opened_for_reading (run_trace s w) = visit_order s w /\
  Permutation (visit_order s w) (found_files s w) /\
  StronglySorted path_le (visit_order s w).
Proof.
  intros Hs Hden. unfold run_trace. rewrite (script_main_shape s w Hden).
  destruct (count_loop (script_process s) (visit_order s w) 0
              (State w (main_prefix s w))) as [r [w' tr']] eqn:Hrun.
  assert (Hreads : exists evs,
            tr' = main_prefix s w ++ evs /\ opened_for_reading evs = visit_order s w).
  { destruct s; [contradiction| |].
    - apply (count_loop_reads (map total (script_fixes FixUseCases))
               (script_process FixUseCases) (script_process_step FixUseCases)
               _ _ _ _ _ _ _ Hrun).
    - apply (count_loop_reads (map total (script_fixes FixUseCasesPhase2))
               (script_process FixUseCasesPhase2) (script_process_step FixUseCasesPhase2)
               _ _ _ _ _ _ _ Hrun). }
  destruct Hreads as (evs & -> & Hreads).
  split; [|split].
  - destruct r as [k|e]; cbn [snd fs trace];
      rewrite ?opened_for_reading_app, ?main_prefix_reads, ?main_suffix_reads, Hreads;
      cbn [app]; now rewrite ?app_nil_r.
  - destruct s; [contradiction| |]; apply sorted_perm.
  - destruct s; [contradiction| |]; apply sorted_sorted.
Qed.

(** Three use-case files listed out of order, the second unreadable: all
    three are opened for reading, in sorted order. *)
Lemma use_case_run_visits_every_file_witness :
  opened_for_reading (run_trace FixUseCases fs_three_use_cases)
  = visit_order FixUseCases fs_three_use_cases /\
  Permutation (visit_order FixUseCases fs_three_use_cases)
    (found_files FixUseCases fs_three_use_cases) /\
  StronglySorted path_le (visit_order FixUseCases fs_three_use_cases).
Proof.
  apply (use_case_run_visits_every_file FixUseCases fs_three_use_cases).
  - discriminate.
  - apply not_elem_of_empty.
Defined.

(** ** The listing order does not show in a sorted run *)

(** Handling a file does not look at the listing. *)
Lemma file_step_relisted h fixes p w r w1 evs (l : list path) :
  file_step h fixes p w r w1 evs ->
  file_step h fixes p (relisted l w) r (relisted l w1) evs.
Proof.
  intros Hstep. inversion Hstep; subst.
  - now apply step_missing.
  - now apply (step_unreadable _ _ _ _ f e).
  - now apply (step_fix_raises _ _ _ _ f e).
  - now apply (step_unchanged _ _ _ _ f).
  - now apply (step_write_fails _ _ _ _ f c e).
  - now apply (step_written h fixes p (relisted l w) f c).
Qed.

(** There is one way through the runner for a file on a file system. *)
Lemma file_step_det h fixes p w r1 w1 evs1 r2 w2 evs2 :
  file_step h fixes p w r1 w1 evs1 ->
  file_step h fixes p w r2 w2 evs2 ->
  r1 = r2 /\ w1 = w2 /\ evs1 = evs2.
Proof.
  intros H1 H2.
  inversion H1; subst; inversion H2; subst;
    repeat match goal with
           | Ha : files ?v !! p = Some ?f, Hb : files ?v !! p = Some ?g |- _ =>
               assert (f = g) by congruence; subst g; clear Hb
           end;
    try congruence;
    repeat match goal with
           | Ha : ?x = Some ?a, Hb : ?x = Some ?b |- _ =>
               assert (a = b) by congruence; subst b; clear Hb
           | Ha : ?x = Ok ?a, Hb : ?x = Ok ?b |- _ =>
               assert (a = b) by congruence; subst b; clear Hb
           | Ha : ?x = Raise ?a, Hb : ?x = Raise ?b |- _ =>
               assert (a = b) by congruence; subst b; clear Hb
           end;
    try (now repeat split); try congruence.
Qed.

Lemma script_process_relisted (s : script) (p : path) (w : fsys) (tr : list event)
    (l : list path) :
  script_process s p (State (relisted l w) tr)
  = (fst (script_process s p (State w tr)),
     State (relisted l (fs (snd (script_process s p (State w tr)))))
           (trace (snd (script_process s p (State w tr))))).
Proof.
  destruct (script_process_step s p w tr) as (r & w1 & evs & Hrun & Hstep).
  destruct (script_process_step s p (relisted l w) tr) as (r' & w1' & evs' & Hrun' & Hstep').
  rewrite Hrun, Hrun'. cbn [fst snd fs trace].
  apply (file_step_relisted _ _ _ _ _ _ _ l) in Hstep.
  destruct (file_step_det _ _ _ _ _ _ _ _ _ _ Hstep' Hstep) as (-> & -> & ->).
  reflexivity.
Qed.

Lemma count_loop_relisted (s : script) (l : list path) (ps : list path) :
  forall n w tr,
    count_loop (script_process s) ps n (State (relisted l w) tr)
    = (fst (count_loop (script_process s) ps n (State w tr)),
       State (relisted l (fs (snd (count_loop (script_process s) ps n (State w tr)))))
             (trace (snd (count_loop (script_process s) ps n (State w tr))))).
Proof.
  induction ps as [|p ps IH]; intros n w tr; [reflexivity|].
  cbn [count_loop]. unfold bind. rewrite script_process_relisted.
  destruct (script_process s p (State w tr)) as [[b|e] [w1 tr1]]; cbn [fst snd fs trace].
  - apply IH.
  - reflexivity.
Qed.

Lemma found_files_relisted (s : script) (w1 w2 : fsys) :
  dirs w1 = dirs w2 -> denied w1 = denied w2 ->
  Permutation (listing w1) (listing w2) ->
  Permutation (found_files s w1) (found_files s w2).
Proof.
  intros Hd Hden Hl.
  assert (H : forall d g, Permutation (glob_files d g w1) (glob_files d g w2)).
  { intros d g. unfold glob_files. rewrite Hd, Hden.
    case_bool_decide; [reflexivity|]. case_bool_decide; [|reflexivity].
    clear -Hl. induction Hl; simpl; try reflexivity.
    - destruct (glob_matches d g x); [now constructor|assumption].
    - destruct (glob_matches d g x), (glob_matches d g y);
        try reflexivity; apply perm_swap.
    - etransitivity; eassumption. }
  destruct s; apply H.
Qed.

(** X5.  For fix-usecases.py and fix-usecases-phase2.py the order in which
    the operating system lists the directory entries does not matter: two
    file systems with the same directories and files and the same paths
    that may not be looked at, listed in any two orders, give the same
    order of visits, ascending by path, the same messages and file
    operations in the same order, and the same files at the end. *)
Theorem use_case_run_independent_of_listing (s : script) (w1 w2 : fsys) :
  s <> FixRepositories ->
  dirs w1 = dirs w2 ->
  files w1 = files w2 ->
  denied w1 = denied w2 ->
  Permutation (listing w1) (listing w2) ->
  visit_order s w1 = visit_order s w2 /\
  StronglySorted path_le (visit_order s w1) /\
  fst (script_main s (State w1 [])) = fst (script_main s (State w2 [])) /\
  run_trace s w1 = run_trace s w2 /\
  files (fs (snd (script_main s (State w1 [])))) = files (fs (snd (script_main s (State w2 [])))).
Proof.
  intros Hs Hd Hf Hden Hl.
  pose proof (found_files_relisted s w1 w2 Hd Hden Hl) as Hfound.
  assert (Hvisit : visit_order s w1 = visit_order s w2).
  { destruct s; [contradiction| |]; cbn [visit_order]; now apply sorted_of_permutation. }
  assert (Hpre : main_prefix s w1 = main_prefix s w2).
  { destruct s; [contradiction| |]; cbn [main_prefix];
      now rewrite (Permutation_length Hfound). }
  assert (Hsuf : forall k, main_suffix s w1 k = main_suffix s w2 k).
  { intros k. destruct s; [contradiction| |]; cbn [main_suffix];
      now rewrite (Permutation_length Hfound). }
  assert (Hw : w2 = relisted (listing w2) w1).
  { destruct w1, w2; unfold relisted; simpl in *. now subst. }
  split; [exact Hvisit|]. split.
  { destruct s; [contradiction| |]; apply sorted_sorted. }
  unfold run_trace.
  destruct (decide (root_of s ∈ denied w1)) as [Hroot|Hroot].
  { rewrite (script_main_denied s w1 Hroot).
    rewrite Hden in Hroot. rewrite (script_main_denied s w2 Hroot).
    cbn [fst snd fs trace]. now rewrite Hf. }
  rewrite (script_main_shape s w1 Hroot).
  rewrite Hden in Hroot. rewrite (script_main_shape s w2 Hroot).
  rewrite <- Hvisit, <- Hpre.
  rewrite Hw at 1 2 3. rewrite count_loop_relisted.
  destruct (count_loop (script_process s) (visit_order s w1) 0
              (State w1 (main_prefix s w1))) as [[k|e] [w' tr']];
    cbn [fst snd fs trace relisted files]; rewrite <- ?Hsuf; repeat split.
Qed.

Lemma use_case_run_independent_of_listing_witness :
  visit_order FixUseCases fs_three_use_cases
  = visit_order FixUseCases fs_three_use_cases_relisted /\
  StronglySorted path_le (visit_order FixUseCases fs_three_use_cases) /\
  fst (script_main FixUseCases (State fs_three_use_cases []))
  = fst (script_main FixUseCases (State fs_three_use_cases_relisted [])) /\
  run_trace FixUseCases fs_three_use_cases
  = run_trace FixUseCases fs_three_use_cases_relisted /\
  files (fs (snd (script_main FixUseCases (State fs_three_use_cases []))))
  = files (fs (snd (script_main FixUseCases (State fs_three_use_cases_relisted [])))).
Proof.
  apply (use_case_run_independent_of_listing FixUseCases fs_three_use_cases
           fs_three_use_cases_relisted).
  - discriminate.
  - reflexivity.
  - reflexivity.
  - reflexivity.
  - change (listing fs_three_use_cases_relisted)
      with (rev (listing fs_three_use_cases)).
    apply Permutation_rev.
Defined.

(** * Further properties of the fix functions *)

(** ** A literal replaced by another literal *)

Section LiteralRule.

(** The pattern is the text [a :: p'], the replacement the text [a :: r'];
    the first character occurs in neither [p'] nor [r'], and the
    replacement does not start with the pattern. *)
Variable a : ascii.
Variables p' r' : text.

Hypothesis first_char_once_in_pattern : forallb (fun x => negb (ascii_eqb a x)) p' = true.
Hypothesis first_char_once_in_replacement : forallb (fun x => negb (ascii_eqb a x)) r' = true.
Hypothesis replacement_differs : forall x, strip_prefix (a :: p') (a :: r' ++ x) = None.

Local Abbreviation out := (literal_rule (a :: p') (a :: r')).

Lemma lit_out_nil : out [] = [].
Proof. reflexivity. Qed.

Lemma lit_out_nomatch (c : ascii) (s : text) :
  strip_prefix (a :: p') (c :: s) = None -> out (c :: s) = c :: out s.
Proof.
  intros H. unfold literal_rule, re_sub_t, re_sub. cbn [sub_go].
  unfold match_at. cbn [mt]. now rewrite H.
Qed.

Lemma lit_out_match (t : text) : out ((a :: p') ++ t) = (a :: r') ++ out t.
Proof.
  unfold literal_rule, re_sub_t, re_sub. cbn [app sub_go].
  unfold match_at. cbn [mt].
  change (a :: p' ++ t) with ((a :: p') ++ t). rewrite strip_prefix_self.
  rewrite length_app. cbn [length].
  replace (S (length p') + length t - length t) with (S (length p')) by lia.
  cbn [expand]. rewrite app_nil_r.
  rewrite sub_go_skip by (rewrite length_app; lia).
  now rewrite drop_app_length.
Qed.

(** Text without the first character of the pattern is copied. *)
Lemma lit_out_copy (u x : text) :
  forallb (fun y => negb (ascii_eqb a y)) u = true -> out (u ++ x) = u ++ out x.
Proof.
  induction u as [|c u IH]; simpl; intros Hu; [reflexivity|].
  apply andb_prop in Hu. destruct Hu as [Hc Hu].
  rewrite lit_out_nomatch.
  - now rewrite IH.
  - simpl. apply negb_true_iff in Hc. now rewrite Hc.
Qed.

Lemma lit_out_replacement (x : text) : out ((a :: r') ++ x) = (a :: r') ++ out x.
Proof.
  cbn [app]. rewrite lit_out_nomatch by apply replacement_differs.
  now rewrite lit_out_copy.
Qed.

(** A text that does not start with [q] does not start with it after the
    substitution, when [q] is free of the first character of the
    pattern. *)
Lemma lit_out_keeps_mismatch (q : text) :
  forallb (fun y => negb (ascii_eqb a y)) q = true ->
  forall s, strip_prefix q s = None -> strip_prefix q (out s) = None.
Proof.
  induction q as [|b q IH]; intros Hq s Hs; [discriminate|].
  simpl in Hq. apply andb_prop in Hq. destruct Hq as [Hb Hq].
  apply negb_true_iff in Hb.
  destruct s as [|c s]; [reflexivity|].
  destruct (strip_prefix (a :: p') (c :: s)) as [t|] eqn:Hm.
  - apply strip_prefix_app in Hm. rewrite Hm, lit_out_match.
    simpl. unfold ascii_eqb in *. rewrite Ascii.eqb_sym. now rewrite Hb.
  - rewrite lit_out_nomatch by exact Hm. simpl in *.
    destruct (ascii_eqb b c); [|reflexivity]. now apply IH.
Qed.

(** Applying the rule twice gives what applying it once gives. *)
Lemma lit_out_idempotent (s : text) : out (out s) = out s.
Proof.
  remember (length s) as n eqn:Hn. revert s Hn.
  induction n as [n IH] using lt_wf_ind. intros s Hn.
  destruct s as [|c s]; [reflexivity|].
  destruct (strip_prefix (a :: p') (c :: s)) as [t|] eqn:Hm.
  - apply strip_prefix_app in Hm. rewrite Hm, lit_out_match, lit_out_replacement.
    f_equal. apply (IH (length t)); [|reflexivity].
    subst n. rewrite Hm. rewrite length_app. simpl. lia.
  - rewrite lit_out_nomatch by exact Hm.
    rewrite lit_out_nomatch.
    + f_equal. apply (IH (length s)); [subst n; simpl; lia|reflexivity].
    + simpl in *. destruct (ascii_eqb a c); [|reflexivity].
      now apply lit_out_keeps_mismatch.
Qed.

(** A text that the rule leaves alone does not contain the pattern. *)
Lemma lit_fixed_point_free (x : text) :
  out x = x -> contains (a :: p') x = false.
Proof.
  induction x as [|c x IH]; intros Hx; [reflexivity|].
  cbn [contains].
  destruct (strip_prefix (a :: p') (c :: x)) as [t|] eqn:Hm.
  - exfalso. apply strip_prefix_app in Hm.
    rewrite Hm, lit_out_match in Hx.
    pose proof (replacement_differs (out t)) as Hd.
    change (a :: r' ++ out t) with ((a :: r') ++ out t) in Hd.
    rewrite Hx, strip_prefix_self in Hd. discriminate.
  - rewrite lit_out_nomatch in Hx by exact Hm. inversion Hx as [Hx'].
    rewrite Hx'. now apply IH.
Qed.

(** The pattern does not occur in what the rule returns. *)
Lemma lit_out_free (s : text) : contains (a :: p') (out s) = false.
Proof. apply lit_fixed_point_free, lit_out_idempotent. Qed.

End LiteralRule.

(** ** The rules [.toDate()] and [.getValue()] *)

Lemma todate_rule_free (s : text) :
  contains (txt ".toDate()") (literal_rule (txt ".toDate()") (txt ".toJSDate()") s) = false.
Proof.
  apply (lit_out_free "."%char (txt "toDate()") (txt "toJSDate()"));
    [reflexivity|reflexivity|intros x; reflexivity].
Qed.

Lemma getvalue_rule_free (s : text) :
  contains (txt ".getValue()") (literal_rule (txt ".getValue()") (txt ".value") s) = false.
Proof.
  apply (lit_out_free "."%char (txt "getValue()") (txt "value"));
    [reflexivity|reflexivity|intros x; reflexivity].
Qed.

(** X6.  Whatever the content, what fix-repositories.py makes of it has no
    [.toDate()] call left: the rule that rewrites these calls runs last and
    its replacement [.toJSDate()] cannot form a new one. *)
Theorem repositories_output_has_no_toDate (content : text) :
  contains (txt ".toDate()") (Repositories.fix_content content) = false.
Proof. unfold Repositories.fix_content. apply todate_rule_free. Qed.

(** X7.  Whatever the content, what fix-usecases.py makes of it has no
    [.getValue()] call left: [fix_result_getvalue] runs last and its
    replacement [.value] cannot form a new one. *)
Theorem usecases_output_has_no_getValue (content : text) :
  contains (txt ".getValue()") (UseCases.fix_content content) = false.
Proof. unfold UseCases.fix_content. apply getvalue_rule_free. Qed.

(** X8.  [fix_result_getvalue] of fix-usecases.py and the [.toDate()] rule
    (the last substitution of fix-repositories.py, the first of
    [fix_datetime_methods]) are idempotent on every content: a second
    application finds nothing to rewrite. *)
Theorem getvalue_and_todate_rules_idempotent (content : text) :
  UseCases.fix_result_getvalue (UseCases.fix_result_getvalue content)
  = UseCases.fix_result_getvalue content /\
  Repositories.sub_todate (Repositories.sub_todate content)
  = Repositories.sub_todate content.
Proof.
  split.
  - apply (lit_out_idempotent "."%char (txt "getValue()") (txt "value"));
      [reflexivity|reflexivity|intros x; reflexivity].
  - apply (lit_out_idempotent "."%char (txt "toDate()") (txt "toJSDate()"));
      [reflexivity|reflexivity|intros x; reflexivity].
Qed.

(** ** Matches are never empty *)

Lemma strip_prefix_length (p s rest : text) :
  strip_prefix p s = Some rest -> length s = length p + length rest.
Proof. intros H. apply strip_prefix_app in H. subst. apply length_app. Qed.

Lemma star_k_shorter {R : Type} (c : cset) (s : text) (k : text -> option R) (x : R) :
  star_k c s k = Some x -> exists s', k s' = Some x /\ length s' <= length s.
Proof.
  induction s as [|b s IH]; simpl; intros H.
  - eauto.
  - destruct (cset_mem c b); [|eauto].
    destruct (star_k c s k) eqn:E; [|eauto].
    inversion H; subst. destruct (IH eq_refl) as (s' & Hk & Hlen). eauto.
Qed.

(** The continuation gets a rest that is shorter by at least [min_len]. *)
Lemma mt_min_len {R : Type} (r : regex) :
  forall (s : text) (g : groups) (k : text -> groups -> option R) (x : R),
    mt r s g k = Some x ->
    exists s' g', k s' g' = Some x /\ length s' + min_len r <= length s.
Proof.
  induction r as [l|c|c|c|r1 IH1 r2 IH2|n r1 IH1|n]; intros s g k x H; simpl in H.
  - destruct (strip_prefix l s) as [s'|] eqn:E; [|discriminate].
    apply strip_prefix_length in E. exists s', g. simpl. split; [exact H|lia].
  - destruct s as [|b s]; [discriminate|]. destruct (cset_mem c b); [|discriminate].
    exists s, g. simpl. split; [exact H|lia].
  - apply star_k_shorter in H. destruct H as (s' & H & Hlen).
    exists s', g. simpl. split; [exact H|lia].
  - destruct s as [|b s]; [discriminate|]. destruct (cset_mem c b); [|discriminate].
    apply star_k_shorter in H. destruct H as (s' & H & Hlen).
    exists s', g. simpl. split; [exact H|lia].
  - apply IH1 in H. destruct H as (s1 & g1 & H & Hlen1).
    apply IH2 in H. destruct H as (s2 & g2 & H & Hlen2).
    exists s2, g2. simpl. split; [exact H|lia].
  - apply IH1 in H. destruct H as (s1 & g1 & H & Hlen1).
    eexists _, _. simpl. split; [exact H|lia].
  - destruct (group_lookup n g) as [t|]; [|discriminate].
    destruct (strip_prefix t s) as [s'|] eqn:E; [|discriminate].
    apply strip_prefix_length in E. exists s', g. simpl. split; [exact H|lia].
Qed.

Lemma match_at_min_len (r : regex) (s : text) (n : nat) (g : groups) :
  match_at r s = Some (n, g) -> min_len r <= n <= length s.
Proof.
  unfold match_at. intros H. apply mt_min_len in H.
  destruct H as (s' & g' & H & Hlen). inversion H; subst. lia.
Qed.

Lemma script_patterns_min_len (s : script) (r : regex) :
  In r (script_patterns s) -> 0 < min_len r.
Proof.
  destruct s; cbn [script_patterns];
    unfold Repositories.patterns, UseCases.patterns, Phase2.patterns; cbn [In];
    intros H;
    repeat (destruct H as [<-|H]; [vm_compute; lia|]); destruct H.
Qed.

(** X9.  No pattern of the three scripts can match the empty string: a
    match of any of them, anywhere, takes at least one character (and no
    more than the text has), so a substitution only ever replaces text that
    is there. *)
Theorem script_patterns_match_nonempty (s : script) (r : regex) (t : text)
    (n : nat) (g : groups) :
  In r (script_patterns s) ->
  match_at r t = Some (n, g) ->
  0 < n <= length t.
Proof.
  intros Hr Hm. apply match_at_min_len in Hm.
  pose proof (script_patterns_min_len s r Hr). lia.
Qed.

Lemma script_patterns_match_nonempty_witness : 0 < 9 <= length (txt ".toDate()x").
Proof.
  apply (script_patterns_match_nonempty FixRepositories Repositories.pat_todate
           (txt ".toDate()x") 9 []).
  - cbn. tauto.
  - vm_compute. reflexivity.
Defined.

(** ** The import rule of [fix_payment_info_create] *)

Lemma contains_here (n s t : text) : strip_prefix n s = Some t -> contains n s = true.
Proof. intros H. destruct s; simpl; now rewrite H. Qed.

Lemma contains_cons (n s : text) (c : ascii) :
  contains n s = true -> contains n (c :: s) = true.
Proof. intros H. cbn [contains]. now destruct (strip_prefix n (c :: s)). Qed.

Lemma contains_app_r (n x y : text) : contains n y = true -> contains n (x ++ y) = true.
Proof. intros H. induction x as [|c x IH]; [exact H|]. now apply contains_cons. Qed.

Lemma strip_prefix_app_l (n y z t : text) :
  strip_prefix n y = Some t -> strip_prefix n (y ++ z) = Some (t ++ z).
Proof.
  intros H. apply strip_prefix_app in H. subst y.
  rewrite <- app_assoc. apply strip_prefix_self.
Qed.

Lemma contains_app_l (n y z : text) : contains n y = true -> contains n (y ++ z) = true.
Proof.
  induction y as [|c y IH]; intros H.
  - simpl in H. destruct (strip_prefix n []) as [t|] eqn:E; [|discriminate].
    apply (contains_here n _ (t ++ z)). now apply (strip_prefix_app_l n [] z t).
  - cbn [contains] in H. destruct (strip_prefix n (c :: y)) as [t|] eqn:E.
    + apply (contains_here n _ (t ++ z)). now apply (strip_prefix_app_l n (c :: y) z t).
    + apply (contains_cons n (y ++ z) c). now apply IH.
Qed.

(** Where the pattern matches somewhere, the result of [re.sub] contains
    what every replacement contains. *)
Lemma re_sub_contains (r : regex) (f : matchobj -> text) (n s : text) :
  (forall m, contains n (f m) = true) ->
  search r s <> None ->
  contains n (re_sub r f s) = true.
Proof.
  intros Hf. unfold re_sub. induction s as [|c s IH]; intros Hs.
  - simpl in *. destruct (match_at r []) as [[k g]|]; [apply Hf|congruence].
  - cbn [search sub_go] in *.
    destruct (match_at r (c :: s)) as [[[|k] g]|].
    + apply contains_app_l, Hf.
    + apply contains_app_l, Hf.
    + apply contains_cons, IH.
      destruct (search r s) as [[i m]|]; congruence.
Qed.

(** X10.  When the guard of the import rule holds on the current content
    and the import is there, [fix_payment_info_create] returns a content
    that names [PaymentMethod], on which the guard no longer holds: the
    import is extended once, a later run leaves it as it is. *)
Theorem payment_import_extended_once (content : text) :
  Phase2.payment_guard (Phase2.sub_payment_create content) = true ->
  search Phase2.pat_payment_import (Phase2.sub_payment_create content) <> None ->
  contains (txt "import { PaymentInfo, PaymentMethod }")
    (Phase2.fix_payment_info_create content) = true /\
  Phase2.payment_guard (Phase2.fix_payment_info_create content) = false.
Proof.
  intros Hguard Hsearch. unfold Phase2.fix_payment_info_create. rewrite Hguard.
  unfold Phase2.sub_payment_import, re_sub_t. split.
  - apply re_sub_contains; [|exact Hsearch]. intros m. reflexivity.
  - unfold Phase2.payment_guard. apply andb_false_iff. right.
    apply negb_false_iff. apply re_sub_contains; [|exact Hsearch].
    intros m. reflexivity.
Qed.

Lemma payment_import_extended_once_witness :
  contains (txt "import { PaymentInfo, PaymentMethod }")
    (Phase2.fix_payment_info_create (txt "import { PaymentInfo } from './payment'")) = true /\
  Phase2.payment_guard
    (Phase2.fix_payment_info_create (txt "import { PaymentInfo } from './payment'")) = false.
Proof.
  apply (payment_import_extended_once (txt "import { PaymentInfo } from './payment'")).
  - vm_compute. reflexivity.
  - vm_compute. discriminate.
Defined.

(** ** A run of fix-repositories.py without failing files *)

(** A file that can be read and written is handled without an exception,
    whoever handles exceptions, and holds the result of its fix functions
    afterwards. *)
Lemma file_step_good h fixes p w r w1 evs (f : file) (c : text) :
  file_step h fixes p w r w1 evs ->
  files w !! p = Some f -> f_read_error f = None -> f_write_error f = None ->
  apply_fixes fixes (f_text f) = Ok c ->
  (exists b, r = Ok b) /\ files w1 !! p = Some (File c None None).
Proof.
  intros Hstep Hf Hre Hwe Hfix.
  inversion Hstep; subst; try congruence.
  - assert (f0 = f) by congruence. subst f0.
    assert (c = f_text f) by congruence. subst c.
    split; [eauto|]. rewrite Hf. destruct f; simpl in *. now subst.
  - assert (f0 = f) by congruence. subst f0.
    assert (c0 = c) by congruence. subst c0.
    split; [eauto|].
    unfold set_text; simpl. rewrite lookup_insert_eq, Hf. now rewrite Hre, Hwe.
Qed.

Section LoopGood.

Variable h : handler.
Variable fixes : list fixfn.
Variable body : path -> M bool.

Hypothesis handler_shape : h = caught \/ h = propagated.
Hypothesis body_step :
  forall p w tr, exists r w1 evs,
    body p (State w tr) = (r, State w1 (tr ++ evs)) /\
    file_step h fixes p w r w1 evs.

(** When every listed file can be read and written and its fix functions
    return, the loop ends normally and every listed file holds their
    result. *)
Lemma count_loop_all_good (ps : list path) :
  NoDup ps ->
  forall n w tr r w' tr',
    (forall p, In p ps ->
       exists f c, files w !! p = Some f /\ f_read_error f = None /\
                   f_write_error f = None /\ apply_fixes fixes (f_text f) = Ok c) ->
    count_loop body ps n (State w tr) = (r, State w' tr') ->
    (exists k, r = Ok k) /\
    forall p f c, In p ps -> files w !! p = Some f ->
      apply_fixes fixes (f_text f) = Ok c ->
      files w' !! p = Some (File c None None).
Proof.
  induction 1 as [|p0 ps Hnotin Hnd IH]; intros n w tr r w' tr' Hgood Hrun.
  - inversion Hrun; subst. split; [eauto|]. intros p f c [].
  - rewrite list_elem_of_In in Hnotin.
    simpl in Hrun. unfold bind in Hrun.
    destruct (body_step p0 w tr) as (r1 & w1 & evs1 & Hbody & Hstep).
    rewrite Hbody in Hrun.
    destruct (Hgood p0 (or_introl eq_refl)) as (f0 & c0 & Hf0 & Hre0 & Hwe0 & Hfix0).
    destruct (file_step_good _ _ _ _ _ _ _ f0 c0 Hstep Hf0 Hre0 Hwe0 Hfix0)
      as [[b ->] Hres0].
    assert (Hsame : forall p, In p ps -> files w1 !! p = files w !! p).
    { intros p Hp. apply (file_step_frame _ _ _ _ _ _ _ p Hstep). congruence. }
    destruct (IH _ w1 _ _ _ _
                 ltac:(intros p Hp; rewrite (Hsame p Hp); apply Hgood; now right)
                 Hrun) as [Hok Hrest].
    split; [exact Hok|].
    intros p f c [->|Hin] Hf Hfix.
    + destruct (count_loop_outside h fixes body handler_shape body_step
                  ps _ _ _ _ _ _ Hrun) as (evs & _ & Hout).
      destruct (Hout p Hnotin) as [Heq _]. rewrite Heq.
      assert (f = f0) by congruence. subst f0.
      assert (c = c0) by congruence. subst c0. exact Hres0.
    + apply (Hrest p f c Hin); [|exact Hfix]. now rewrite (Hsame p Hin).
Qed.

End LoopGood.

(** X11.  When the repositories directory may be looked at, the directory
    listing has no repetitions and every file the glob of
    fix-repositories.py found can be read and written, the run ends
    normally, it has taken the files in listing order, and each of them
    holds what the six substitutions make of its previous content. *)
Theorem repositories_run_on_good_files (w : fsys) :
  Repositories.repo_dir ∉ denied w ->
  NoDup (listing w) ->
  (forall p, In p (found_files FixRepositories w) ->
     exists f, files w !! p = Some f /\ f_read_error f = None /\ f_write_error f = None) ->
  fst (Repositories.main (State w [])) = Ok tt /\
  visited (run_trace FixRepositories w) = map name (found_files FixRepositories w) /\
  forall p f, In p (found_files FixRepositories w) -> files w !! p = Some f ->
    files (fs (snd (Repositories.main (State w [])))) !! p
    = Some (File (Repositories.fix_content (f_text f)) None None).
Proof.
  intros Hden Hnd Hgood. unfold run_trace.
  change Repositories.main with (script_main FixRepositories).
  rewrite (script_main_shape FixRepositories w Hden).
  destruct (script_loop_run FixRepositories (visit_order FixRepositories w) 0 w
              (main_prefix FixRepositories w))
    as (r & w' & evs & Hrun & _ & _ & Hcount).
  rewrite Hrun.
  destruct (count_loop_all_good propagated [total Repositories.fix_content]
              (script_process FixRepositories) (or_intror eq_refl)
              (script_process_step FixRepositories)
              (visit_order FixRepositories w) (visit_order_NoDup FixRepositories w Hnd)
              _ _ _ _ _ _
              ltac:(intros p Hp; destruct (Hgood p Hp) as (f & Hf & Hre & Hwe);
                    exists f, (Repositories.fix_content (f_text f));
                    split; [exact Hf|split; [exact Hre|split; [exact Hwe|reflexivity]]])
              Hrun) as [[k ->] Hfiles].
  cbn [fst snd fs trace].
  destruct (Hcount k eq_refl) as (_ & _ & Hvisit).
  destruct (main_prefix_plain FixRepositories w) as (Hp & _).
  destruct (main_suffix_plain FixRepositories w k) as (Hq & _).
  split; [reflexivity|]. split.
  - rewrite <- app_assoc, !visited_app, Hp, Hq, Hvisit. cbn [app]. now rewrite app_nil_r.
  - intros p f Hin Hf. now apply (Hfiles p f).
Qed.

Lemma repositories_run_on_good_files_witness :
  fst (Repositories.main (State fs_listed_b_first [])) = Ok tt /\
  visited (run_trace FixRepositories fs_listed_b_first)
  = map name (found_files FixRepositories fs_listed_b_first) /\
  forall p f, In p (found_files FixRepositories fs_listed_b_first) ->
    files fs_listed_b_first !! p = Some f ->
    files (fs (snd (Repositories.main (State fs_listed_b_first [])))) !! p
    = Some (File (Repositories.fix_content (f_text f)) None None).
Proof.
  apply (repositories_run_on_good_files fs_listed_b_first).
  - apply not_elem_of_empty.
  - apply NoDup_ListNoDup. vm_compute.
    repeat (constructor; [intros H; repeat (destruct H as [H|H]; [discriminate H|]); exact H|]).
    constructor.
  - assert (Hfound : found_files FixRepositories fs_listed_b_first = [repo_b; repo_a])
      by (vm_compute; reflexivity).
    rewrite Hfound. intros p [<-|[<-|[]]].
    + exists (plain_file (txt "b.toDate()")).
      split; [vm_compute; reflexivity|split; reflexivity].
    + exists (plain_file (txt "a.toDate()")).
      split; [vm_compute; reflexivity|split; reflexivity].
Defined.

(** ** Contents without the literal pieces of the patterns *)

Lemma contains_self (l : text) : contains l l = true.
Proof.
  apply (contains_here l l []). rewrite <- (app_nil_r l) at 2. apply strip_prefix_self.
Qed.

Lemma star_k_split {R : Type} (c : cset) (s : text) (k : text -> option R) (x : R) :
  star_k c s k = Some x -> exists u s', s = u ++ s' /\ k s' = Some x.
Proof.
  induction s as [|b s IH]; simpl; intros H.
  - exists [], []. now split.
  - destruct (cset_mem c b); [|exists [], (b :: s); now split].
    destruct (star_k c s k) eqn:E; [|exists [], (b :: s); now split].
    inversion H; subst. destruct (IH eq_refl) as (u & s' & -> & Hk).
    exists (b :: u), s'. now split.
Qed.

(** What the matcher reads contains every literal piece of the pattern. *)
Lemma mt_literals {R : Type} (r : regex) :
  forall (s : text) (g : groups) (k : text -> groups -> option R) (x : R),
    mt r s g k = Some x ->
    exists u s' g', s = u ++ s' /\ k s' g' = Some x /\
                    forall l, In l (literals r) -> contains l u = true.
Proof.
  induction r as [l|c|c|c|r1 IH1 r2 IH2|n r1 IH1|n]; intros s g k x H; simpl in H.
  - destruct (strip_prefix l s) as [s'|] eqn:E; [|discriminate].
    apply strip_prefix_app in E. exists l, s', g. repeat split; try assumption.
    intros l' [<-|[]]. apply contains_self.
  - destruct s as [|b s]; [discriminate|]. destruct (cset_mem c b); [|discriminate].
    exists [b], s, g. repeat split; try assumption. intros l [].
  - apply star_k_split in H. destruct H as (u & s' & -> & H).
    exists u, s', g. repeat split; try assumption. intros l [].
  - destruct s as [|b s]; [discriminate|]. destruct (cset_mem c b); [|discriminate].
    apply star_k_split in H. destruct H as (u & s' & -> & H).
    exists (b :: u), s', g. repeat split; try assumption. intros l [].
  - apply IH1 in H. destruct H as (u1 & s1 & g1 & -> & H & Hl1).
    apply IH2 in H. destruct H as (u2 & s2 & g2 & -> & H & Hl2).
    exists (u1 ++ u2), s2, g2. rewrite <- app_assoc. repeat split; try assumption.
    intros l Hl. simpl in Hl. apply in_app_or in Hl. destruct Hl as [Hl|Hl].
    + apply contains_app_l. now apply Hl1.
    + apply contains_app_r. now apply Hl2.
  - apply IH1 in H. destruct H as (u1 & s1 & g1 & -> & H & Hl1).
    eexists u1, s1, _. repeat split; try eassumption.
  - destruct (group_lookup n g) as [t|]; [|discriminate].
    destruct (strip_prefix t s) as [s'|] eqn:E; [|discriminate].
    apply strip_prefix_app in E. exists t, s', g. repeat split; try assumption.
    intros l [].
Qed.

Lemma search_literals (r : regex) (s : text) (l : text) :
  search r s <> None -> In l (literals r) -> contains l s = true.
Proof.
  intros Hs Hl. induction s as [|c s IH].
  - simpl in Hs. destruct (match_at r []) as [m|] eqn:E; [|congruence].
    unfold match_at in E. apply mt_literals in E.
    destruct E as (u & s' & g' & Hu & _ & Hlit).
    rewrite Hu. apply contains_app_l. now apply Hlit.
  - cbn [search] in Hs. destruct (match_at r (c :: s)) as [m|] eqn:E.
    + unfold match_at in E. apply mt_literals in E.
      destruct E as (u & s' & g' & Hu & _ & Hlit).
      rewrite Hu. apply contains_app_l. now apply Hlit.
    + apply contains_cons, IH. destruct (search r s) as [[i m]|]; congruence.
Qed.

Lemma lacks_a_literal_no_match (c : text) (r : regex) :
  lacks_a_literal c r = true -> search r c = None.
Proof.
  unfold lacks_a_literal. intros H. apply existsb_exists in H.
  destruct H as (l & Hl & Hc). apply negb_true_iff in Hc.
  destruct (search r c) eqn:E; [|reflexivity].
  assert (Hs : search r c <> None) by congruence.
  rewrite (search_literals r c l Hs Hl) in Hc. discriminate.
Qed.

(** X12.  A content that lacks, for each pattern of a script, some literal
    piece of that pattern (such as [.toDate()], [Mapper.toDomain(] or
    [.version] for fix-repositories.py) is returned unchanged by the
    script, and a readable file with such a content is not written. *)
Theorem content_without_literals_unchanged (s : script) (p : path) (w : fsys)
    (tr : list event) (f : file) :
  files w !! p = Some f ->
  f_read_error f = None ->
  forallb (lacks_a_literal (f_text f)) (script_patterns s) = true ->
  script_fix s (f_text f) = f_text f /\
  script_process s p (State w tr)
  = (Ok false,
     State w (tr ++ [Print (Processing (name p)); OpenRead p;
                     Print (NoChanges (name p))])).
Proof.
  intros Hf Hre Hlack.
  assert (Hno : no_pattern_matches (script_patterns s) (f_text f) = true).
  { unfold no_pattern_matches. rewrite forallb_forall in *. intros r Hr.
    now rewrite (lacks_a_literal_no_match _ _ (Hlack r Hr)). }
  split; [now apply script_fix_nomatch|].
  destruct (script_process_step s p w tr) as (r & w1 & evs & Hrun & Hstep).
  rewrite Hrun.
  apply (file_step_same_content _ _ _ _ _ _ _ f) in Hstep; try assumption.
  - destruct Hstep as (-> & -> & ->). reflexivity.
  - pose proof (script_fix_nomatch s _ Hno) as Hfix. destruct s.
    + change (Ok (Repositories.fix_content (f_text f)) = Ok (f_text f)).
      f_equal. exact Hfix.
    + now rewrite apply_fixes_total, <- script_fix_fold, Hfix.
    + now rewrite apply_fixes_total, <- script_fix_fold, Hfix.
Qed.

Lemma content_without_literals_unchanged_witness :
  script_fix FixUseCases (f_text (plain_file (txt "done")))
  = f_text (plain_file (txt "done")) /\
  script_process FixUseCases use_case_a (State fs_one_clean [])
  = (Ok false,
     State fs_one_clean
       ([] ++ [Print (Processing (name use_case_a)); OpenRead use_case_a;
               Print (NoChanges (name use_case_a))])).
Proof.
  apply (content_without_literals_unchanged FixUseCases use_case_a fs_one_clean []
           (plain_file (txt "done"))).
  - vm_compute. reflexivity.
  - reflexivity.
  - vm_compute. reflexivity.
Defined.

(** * Applying a script twice *)

(** ** Occurrences of a text around a replacement *)

Lemma is_prefix_split (q a b : text) :
  is_prefix q (a ++ b) = true ->
  is_prefix q a = true \/ exists q', q = a ++ q' /\ q' <> [] /\ is_prefix q' b = true.
Proof.
  revert q. induction a as [|c a IH]; intros q H.
  - destruct q as [|d q]; [now left|]. right. exists (d :: q). now repeat split.
  - destruct q as [|d q]; [now left|].
    unfold is_prefix in *. cbn [app strip_prefix] in *.
    destruct (ascii_eqb d c) eqn:E; [|discriminate].
    apply Ascii.eqb_eq in E. subst d.
    destruct (IH q H) as [Hl|(q' & -> & Hne & Hq')]; [now left|].
    right. exists q'. now repeat split.
Qed.

Lemma tails_ne_In (a q' : text) : q' <> [] -> In q' (tails_ne (a ++ q')).
Proof.
  intros Hne. induction a as [|c a IH]; cbn [app tails_ne].
  - destruct q' as [|d q']; [contradiction|]. now left.
  - now right.
Qed.

Lemma is_prefix_app (a b : text) : is_prefix a (a ++ b) = true.
Proof. unfold is_prefix. now rewrite strip_prefix_self. Qed.

Lemma is_prefix_contains (q s : text) : is_prefix q s = true -> contains q s = true.
Proof.
  unfold is_prefix. destruct (strip_prefix q s) as [t|] eqn:E; [|discriminate].
  intros _. now apply (contains_here q s t).
Qed.

Lemma contains_step (q : text) (c : ascii) (s : text) :
  contains q (c :: s) = is_prefix q (c :: s) || contains q s.
Proof. unfold is_prefix. cbn [contains]. now destruct (strip_prefix q (c :: s)). Qed.

Lemma contains_nil_r (q : text) : contains q [] = is_prefix q [].
Proof. unfold is_prefix. cbn [contains]. now destruct (strip_prefix q []). Qed.

(** An occurrence of [q] in [r ++ y] that starts within [r]. *)
Lemma overlap_inner (q r y : text) :
  forallb (fun r' => negb (prefix_related q r')) (tails_ne r) = true ->
  contains q (r ++ y) = true -> contains q y = true.
Proof.
  induction r as [|c r IH]; intros Hfree H; [exact H|].
  cbn [tails_ne forallb] in Hfree. apply andb_prop in Hfree. destruct Hfree as [Hc Hfree].
  apply negb_true_iff in Hc. unfold prefix_related in Hc.
  apply orb_false_iff in Hc. destruct Hc as [Hc1 Hc2].
  cbn [app] in H. rewrite contains_step in H. apply orb_prop in H.
  destruct H as [H|H]; [|now apply IH].
  change (c :: r ++ y) with ((c :: r) ++ y) in H.
  apply is_prefix_split in H. destruct H as [H|(q' & -> & _ & _)].
  - congruence.
  - rewrite is_prefix_app in Hc2. discriminate.
Qed.

(** An occurrence of [q] in [x ++ r ++ y] lies within [x] or within [y]
    when [q] cannot overlap [r]. *)
Lemma overlap_single (q r x y : text) :
  cannot_overlap q r = true ->
  contains q (x ++ r ++ y) = true -> contains q x = true \/ contains q y = true.
Proof.
  intros Hfree. unfold cannot_overlap in Hfree. apply andb_prop in Hfree.
  destruct Hfree as [Hq Hr].
  induction x as [|c x IH]; intros H.
  - right. now apply (overlap_inner q r y).
  - cbn [app] in H. rewrite contains_step in H. apply orb_prop in H.
    destruct H as [H|H].
    + change (c :: x ++ r ++ y) with ((c :: x) ++ r ++ y) in H.
      apply is_prefix_split in H. destruct H as [H|(q' & -> & Hne & H)].
      * left. now apply is_prefix_contains.
      * exfalso.
        assert (Hin : In q' (tails_ne ((c :: x) ++ q'))) by now apply tails_ne_In.
        rewrite forallb_forall in Hq. specialize (Hq q' Hin).
        apply negb_true_iff in Hq. unfold prefix_related in Hq.
        apply orb_false_iff in Hq. destruct Hq as [Hq1 Hq2].
        apply is_prefix_split in H. destruct H as [H|(q'' & -> & _ & _)].
        -- congruence.
        -- rewrite is_prefix_app in Hq2. discriminate.
    + destruct (IH H) as [Hx|Hy]; [left|now right].
      rewrite contains_step, Hx. apply orb_true_r.
Qed.

Lemma none_starts_snoc (q x : text) (c : ascii) (s : text) :
  none_starts q (x ++ [c]) s = none_starts q x (c :: s) && negb (is_prefix q (c :: s)).
Proof.
  induction x as [|d x IH]; cbn [app none_starts].
  - now rewrite andb_true_r.
  - rewrite IH. rewrite <- !app_assoc. cbn [app]. now rewrite andb_assoc.
Qed.

Lemma contains_app_split (q x s : text) :
  contains q (x ++ s) = negb (none_starts q x s) || contains q s.
Proof.
  induction x as [|c x IH]; [reflexivity|].
  cbn [app none_starts]. rewrite contains_step, IH.
  change (c :: x ++ s) with ((c :: x) ++ s).
  destruct (is_prefix q ((c :: x) ++ s)); [reflexivity|].
  reflexivity.
Qed.

Lemma none_starts_contains (q x s : text) :
  q <> [] -> none_starts q x s = true -> contains q x = false.
Proof.
  intros Hne. induction x as [|c x IH]; intros H.
  - rewrite contains_nil_r. destruct q; [contradiction|reflexivity].
  - cbn [none_starts] in H. apply andb_prop in H. destruct H as [Hc H].
    rewrite contains_step, (IH H), orb_false_r.
    apply negb_true_iff in Hc.
    destruct (is_prefix q (c :: x)) eqn:E; [|reflexivity].
    unfold is_prefix in E, Hc.
    destruct (strip_prefix q (c :: x)) as [t|] eqn:E'; [|discriminate].
    now rewrite (strip_prefix_app_l _ _ s _ E') in Hc.
Qed.

(** ** [re.sub] of one literal by another *)

Lemma literal_rule_nil (p r : text) : p <> [] -> literal_rule p r [] = [].
Proof. intros Hne. destruct p; [contradiction|reflexivity]. Qed.

Lemma literal_rule_nomatch (p r : text) (c : ascii) (s : text) :
  is_prefix p (c :: s) = false ->
  literal_rule p r (c :: s) = c :: literal_rule p r s.
Proof.
  unfold is_prefix. intros H.
  destruct (strip_prefix p (c :: s)) eqn:E; [discriminate|].
  unfold literal_rule, re_sub_t, re_sub. cbn [sub_go].
  unfold match_at. cbn [mt]. now rewrite E.
Qed.

Lemma literal_rule_match (p r t : text) :
  p <> [] -> literal_rule p r (p ++ t) = r ++ literal_rule p r t.
Proof.
  intros Hne. destruct p as [|a p']; [contradiction|].
  unfold literal_rule, re_sub_t, re_sub. cbn [app sub_go].
  unfold match_at. cbn [mt].
  change (a :: p' ++ t) with ((a :: p') ++ t). rewrite strip_prefix_self.
  rewrite length_app. cbn [length].
  replace (S (length p') + length t - length t) with (S (length p')) by lia.
  cbn [expand]. rewrite app_nil_r.
  rewrite sub_go_skip by (rewrite length_app; lia).
  now rewrite drop_app_length.
Qed.

Lemma contains_false_app (q x y : text) :
  contains q (x ++ y) = false -> contains q x = false /\ contains q y = false.
Proof.
  intros H. split.
  - destruct (contains q x) eqn:E; [|reflexivity].
    now rewrite (contains_app_l q x y E) in H.
  - destruct (contains q y) eqn:E; [|reflexivity].
    now rewrite (contains_app_r q x y E) in H.
Qed.

Section LiteralRuleOverlap.

Variables p r q : text.
Hypothesis pattern_not_empty : p <> [].
Hypothesis apart : cannot_overlap q r = true.

(** A text that does not occur before the substitution does not occur
    after it. *)
Lemma literal_rule_keeps_absent (s : text) :
  forall x, contains q (x ++ s) = false -> contains q (x ++ literal_rule p r s) = false.
Proof.
  remember (length s) as n eqn:Hn. revert s Hn.
  induction n as [n IH] using lt_wf_ind. intros s Hn x H.
  destruct s as [|c s]; [now rewrite literal_rule_nil|].
  destruct (is_prefix p (c :: s)) eqn:Hm.
  - unfold is_prefix in Hm. destruct (strip_prefix p (c :: s)) as [t|] eqn:E; [|discriminate].
    apply strip_prefix_app in E. rewrite E in *. rewrite literal_rule_match by assumption.
    apply contains_false_app in H. destruct H as [Hx Hpt].
    apply contains_false_app in Hpt. destruct Hpt as [_ Ht].
    destruct (contains q (x ++ r ++ literal_rule p r t)) eqn:Hc; [|reflexivity].
    apply (overlap_single q r x _ apart) in Hc. destruct Hc as [Hc|Hc]; [congruence|].
    assert (Hlen : length t < n).
    { subst n. rewrite length_app. destruct p; [contradiction|]. simpl. lia. }
    pose proof (IH (length t) Hlen t eq_refl [] Ht) as Hout. cbn [app] in Hout. congruence.
  - rewrite literal_rule_nomatch by exact Hm.
    change (x ++ c :: literal_rule p r s) with (x ++ [c] ++ literal_rule p r s).
    rewrite app_assoc. apply (IH (length s)); [subst n; simpl; lia|reflexivity|].
    now rewrite <- app_assoc.
Qed.

End LiteralRuleOverlap.

Section LiteralRuleFree.

Variables p r : text.
Hypothesis pattern_not_empty : p <> [].
Hypothesis apart : cannot_overlap p r = true.

(** The pattern does not occur in what the substitution returns. *)
Lemma literal_rule_output_free (s : text) :
  forall x, none_starts p x s = true -> contains p (x ++ literal_rule p r s) = false.
Proof.
  remember (length s) as n eqn:Hn. revert s Hn.
  induction n as [n IH] using lt_wf_ind. intros s Hn x H.
  destruct s as [|c s].
  - rewrite literal_rule_nil by assumption. rewrite app_nil_r.
    now apply (none_starts_contains p x []).
  - destruct (is_prefix p (c :: s)) eqn:Hm.
    + unfold is_prefix in Hm.
      destruct (strip_prefix p (c :: s)) as [t|] eqn:E; [|discriminate].
      apply strip_prefix_app in E. rewrite E in *. rewrite literal_rule_match by assumption.
      destruct (contains p (x ++ r ++ literal_rule p r t)) eqn:Hc; [|reflexivity].
      apply (overlap_single p r x _ apart) in Hc. destruct Hc as [Hc|Hc].
      * rewrite (none_starts_contains p x _ pattern_not_empty H) in Hc. discriminate.
      * assert (Hlen : length t < n).
        { subst n. rewrite length_app. destruct p; [contradiction|]. simpl. lia. }
        pose proof (IH (length t) Hlen t eq_refl [] eq_refl) as Hout.
        cbn [app] in Hout. congruence.
    + rewrite literal_rule_nomatch by exact Hm.
      change (x ++ c :: literal_rule p r s) with (x ++ [c] ++ literal_rule p r s).
      rewrite app_assoc. apply (IH (length s)); [subst n; simpl; lia|reflexivity|].
      now rewrite none_starts_snoc, H, Hm.
Qed.

Lemma literal_rule_free (s : text) : contains p (literal_rule p r s) = false.
Proof. apply (literal_rule_output_free s []). reflexivity. Qed.

End LiteralRuleFree.

(** Without its pattern in the text a literal rule does nothing. *)
Lemma literal_rule_idle (p r c : text) :
  contains p c = false -> literal_rule p r c = c.
Proof.
  intros H. apply re_sub_nomatch. apply lacks_a_literal_no_match.
  unfold lacks_a_literal. cbn [literals existsb]. now rewrite H.
Qed.

(** ** A sequence of substitutions applied twice *)

Lemma absent_In (qs : list text) (c q : text) :
  absent qs c = true -> In q qs -> contains q c = false.
Proof.
  unfold absent. rewrite forallb_forall. intros H Hin.
  apply negb_true_iff. now apply H.
Qed.

Lemma literal_rule_keeps_all_absent (p r : text) (qs : list text) (c : text) :
  p <> [] -> forallb (fun q => cannot_overlap q r) qs = true ->
  absent qs c = true -> absent qs (literal_rule p r c) = true.
Proof.
  intros Hp Hfree Habs. unfold absent in *. rewrite forallb_forall in *.
  intros q Hq. apply negb_true_iff.
  apply (literal_rule_keeps_absent p r q Hp (Hfree q Hq) c []).
  apply negb_true_iff. now apply Habs.
Qed.

Lemma not_empty_ne (l : text) : not_empty l = true -> l <> [].
Proof. now destruct l. Qed.

Section Twice.

Variable ks : list text.

(** After the steps, the keys are still absent, and so are the patterns of
    the literal rules that ran. *)
Lemma run_steps_clears (sts : list step) :
  forall done c,
    Forall step_ok sts -> incl (keys sts) ks -> settles ks done sts = true ->
    absent ks c = true -> absent done c = true ->
    absent ks (run_steps sts c) = true /\
    absent done (run_steps sts c) = true /\
    absent (rewritten sts) (run_steps sts c) = true.
Proof.
  induction sts as [|st sts IH]; intros done c Hok Hkeys Hset Hks Hdone.
  - now repeat split.
  - inversion Hok as [|? ? Hst Hrest]; subst.
    destruct st as [p r|q f|f]; cbn [run_steps fold_left run_step settles] in *.
    + apply andb_prop in Hset. destruct Hset as [Hset Hsettles].
      apply andb_prop in Hset. destruct Hset as [Hset Hall].
      apply andb_prop in Hset. destruct Hset as [Hp Hself].
      apply not_empty_ne in Hp.
      rewrite forallb_app in Hall. apply andb_prop in Hall. destruct Hall as [Hk Hd].
      destruct (IH (p :: done) (literal_rule p r c) Hrest) as (H1 & H2 & H3).
      * exact Hkeys.
      * exact Hsettles.
      * now apply literal_rule_keeps_all_absent.
      * cbn [absent forallb]. rewrite (literal_rule_free p r Hp Hself c).
        now apply literal_rule_keeps_all_absent.
      * cbn [absent forallb] in H2. apply andb_prop in H2. destruct H2 as [H2 H2'].
        split; [exact H1|]. split; [exact H2'|].
        change (absent (p :: rewritten sts) (run_steps sts (literal_rule p r c)) = true).
        unfold absent in *. cbn [forallb]. now rewrite H2.
    + assert (Hq : contains q c = false).
      { apply (absent_In ks c q Hks). apply Hkeys. now left. }
      cbn [step_ok] in Hst. rewrite (Hst c Hq).
      apply IH; try assumption. intros x Hx. apply Hkeys. now right.
    + cbn [step_ok] in Hst. rewrite (Hst c). now apply IH.
Qed.

(** On a content without the keys and without the patterns of the literal
    rules, no step does anything. *)
Lemma run_steps_idle (sts : list step) :
  forall c,
    Forall step_ok sts -> incl (keys sts) ks ->
    absent ks c = true -> absent (rewritten sts) c = true ->
    run_steps sts c = c.
Proof.
  induction sts as [|st sts IH]; intros c Hok Hkeys Hks Hpat; [reflexivity|].
  inversion Hok as [|? ? Hst Hrest]; subst.
  destruct st as [p r|q f|f]; cbn [run_steps fold_left run_step] in *.
  - cbn [rewritten flat_map app absent forallb] in Hpat.
    apply andb_prop in Hpat. destruct Hpat as [Hp Hpat].
    apply negb_true_iff in Hp. rewrite (literal_rule_idle p r c Hp). now apply IH.
  - assert (Hq : contains q c = false).
    { apply (absent_In ks c q Hks). apply Hkeys. now left. }
    cbn [step_ok] in Hst. rewrite (Hst c Hq).
    apply IH; try assumption. intros x Hx. apply Hkeys. now right.
  - cbn [step_ok] in Hst. rewrite (Hst c). now apply IH.
Qed.

End Twice.

(** ** The steps of the three scripts *)

Lemma script_steps_run (s : script) (c : text) :
  run_steps (script_steps s) c = script_fix s c.
Proof. destruct s; reflexivity. Qed.

Lemma contains_trans (q l c : text) :
  contains q l = true -> contains l c = true -> contains q c = true.
Proof.
  intros Hq. induction c as [|a c IH]; intros Hl.
  - rewrite contains_nil_r in Hl. unfold is_prefix in Hl.
    destruct (strip_prefix l []) as [t|] eqn:E; [|discriminate].
    apply strip_prefix_app in E. symmetry in E. apply app_eq_nil in E.
    destruct E as [-> _]. exact Hq.
  - rewrite contains_step in Hl. apply orb_prop in Hl. destruct Hl as [Hl|Hl].
    + unfold is_prefix in Hl. destruct (strip_prefix l (a :: c)) as [t|] eqn:E; [|discriminate].
      apply strip_prefix_app in E. rewrite E. now apply contains_app_l.
    + apply contains_cons. now apply IH.
Qed.

(** A substitution does nothing on a content that lacks a text which
    every match of its pattern contains. *)
Lemma re_sub_needs (r : regex) (f : matchobj -> text) (q : text) :
  existsb (fun l => contains q l) (literals r) = true ->
  forall c, contains q c = false -> re_sub r f c = c.
Proof.
  intros Hex c Hc. apply re_sub_nomatch.
  destruct (search r c) as [m|] eqn:E; [|reflexivity].
  exfalso. apply existsb_exists in Hex. destruct Hex as (l & Hin & Hl).
  assert (Hlc : contains l c = true).
  { apply (search_literals r c l); [now rewrite E|exact Hin]. }
  rewrite (contains_trans q l c Hl Hlc) in Hc. discriminate.
Qed.

Ltac needs_literal :=
  let c := fresh "c" in
  let Hc := fresh "Hc" in
  intros c Hc;
  match type of Hc with
  | contains ?q _ = false => refine (re_sub_needs _ _ q _ c Hc); vm_compute; reflexivity
  end.

Lemma script_steps_ok (s : script) : Forall step_ok (script_steps s).
Proof.
  destruct s; cbn [script_steps]; unfold repositories_steps, usecases_steps, phase2_steps;
    repeat (apply Forall_cons; split); try apply Forall_nil; cbn [step_ok];
      try exact I;
      unfold Repositories.sub_specialty_import, Repositories.sub_assign,
        Repositories.sub_version, Repositories.sub_return,
        Phase2.sub_specialties_some, Phase2.sub_payment_create,
        Phase2.fix_appointment_add_notes, re_sub_t;
      try needs_literal.
  - intros c. unfold Phase2.sub_required_skills. now apply re_sub_same.
  - intros c Hc.
    assert (H : Phase2.sub_payment_import c = c).
    { unfold Phase2.sub_payment_import, re_sub_t.
      refine (re_sub_needs _ _ _ _ c Hc). vm_compute. reflexivity. }
    rewrite H. now destruct (Phase2.payment_guard c).
  - intros c. unfold Phase2.sub_complete, Phase2.pat_complete, plain.
    apply re_sub_t_literal_same.
  - intros c. reflexivity.
Qed.

Lemma script_steps_keys (s : script) : incl (keys (script_steps s)) (script_keys s).
Proof.
  destruct s; intros q Hq; cbn in Hq |- *;
    repeat (destruct Hq as [<-|Hq]; [tauto|]); destruct Hq.
Qed.

Lemma script_steps_settle (s : script) : settles (script_keys s) [] (script_steps s) = true.
Proof. destruct s; vm_compute; reflexivity. Qed.

(** A script is idempotent on the contents without its keys. *)
Lemma script_fix_twice (s : script) (c : text) :
  absent (script_keys s) c = true ->
  script_fix s (script_fix s c) = script_fix s c.
Proof.
  intros Habs. rewrite <- !script_steps_run.
  destruct (run_steps_clears (script_keys s) (script_steps s) [] c
              (script_steps_ok s) (script_steps_keys s) (script_steps_settle s)
              Habs eq_refl) as (H1 & _ & H3).
  now apply (run_steps_idle (script_keys s) _ _ (script_steps_ok s) (script_steps_keys s)).
Qed.

(** ** C1: a second application *)



